(** * AudioLoopback driver core: client registry, IO reference count,
      loopback clock, sample-rate setters and ring-buffer round trip

    A shallow embedding of the parts of the RDC driver that the
    specification's testable properties talk about:

    - [ClientMap]  : RDCAudio/DeviceClients/RDC_ClientMap.{h,cpp}
    - [Clients]    : RDCAudio/DeviceClients/RDC_Clients.{h,cpp}
    - [DeviceClients] : the client calls of RDCAudio/RDC_Device.cpp on its
                     [Clients] member, and the histories they make
    - [Device]     : RDCAudio/RDC_Device.cpp (IO data paths, loopback
                     clock in binary64 arithmetic, sample-rate setters)
    - [RingBuffer] : PublicUtility/CARingBuffer.h (declarations) together
                     with the Store/Fetch algorithms of the specification.
    - [PlugInInterface] : the reference count of
                     RDCAudio/RDC_PlugInInterface.cpp
    - [MuteControl] : RDCAudio/RDC_Control.cpp and RDC_MuteControl.cpp

    C++ exceptions are modelled by an outcome type; every operation threads
    the object state explicitly and keeps the state reached at the point of
    a throw, so that partial updates stay visible. *)

From Stdlib Require Import ZArith QArith Qround Qpower Lia Sorted.
From Stdlib Require Import Strings.Byte.
From stdpp Require Import gmap strings list.

Local Open Scope Z_scope.

(** ** Exceptions and the state/exception monad *)

(** The status codes carried by [CAException] in the modelled code. The
    last constructor carries a raw [CARingBufferError] value, as thrown by
    [RDC_Device::WriteOutputData]. *)
Inductive OSStatus :=
| kAudioHardwareIllegalOperationError
| kAudioHardwareUnspecifiedError
| kAudioDeviceUnsupportedFormatError
| RingBufferStatus (err : Z).

Inductive exn :=
| RDC_InvalidClientException
| CAException (status : OSStatus).

Inductive outcome (A : Type) :=
| Returned (a : A)
| Thrown (e : exn).
Arguments Returned {A} a.
Arguments Thrown {A} e.

(** A computation over an object of type [S]: it ends by returning or by
    throwing, and in both cases leaves the object in some state. *)
Definition M (S A : Type) : Type := S -> outcome A * S.

Definition ret {S A} (a : A) : M S A := fun s => (Returned a, s).

Definition bind {S A B} (m : M S A) (k : A -> M S B) : M S B :=
  fun s => match m s with
           | (Returned a, s') => k a s'
           | (Thrown e, s') => (Thrown e, s')
           end.

Definition get {S} : M S S := fun s => (Returned s, s).
Definition modify {S} (f : S -> S) : M S unit := fun s => (Returned tt, f s).
Definition Throw {S A} (e : exn) : M S A := fun s => (Thrown e, s).

(** [ThrowIf(cond, exception, message)] of CAException.h. *)
Definition ThrowIf {S} (cond : bool) (e : exn) : M S unit :=
  if cond then Throw e else ret tt.

Notation "'do' x <- c1 ;; c2" := (bind c1 (fun x => c2))
  (at level 10, x name, c1 at level 99, c2 at level 200).
Notation "c1 ;; c2" := (bind c1 (fun _ => c2))
  (at level 100, c2 at level 200, right associativity).

(** The object state after the call has come back to its caller, by a
    normal return or by unwinding. *)
Definition state_after {S A} (m : M S A) (s : S) : S := snd (m s).
Definition result_of {S A} (m : M S A) (s : S) : outcome A := fst (m s).

(** ** RDC_Client *)

(** [mClientID] is a UInt32, [mProcessID] a pid_t. A [CACFString] wraps a
    possibly-NULL CFStringRef: [Some] is a string for which [IsValid()]
    holds, [None] the NULL one. *)
Record RDC_Client := mkClient {
  mClientID : Z;
  mProcessID : Z;
  mIsNativeEndian : bool;
  mBundleID : option string;
  mDoingIO : bool
}.

Global Instance RDC_Client_eq_dec : EqDecision RDC_Client.
Proof. solve_decision. Defined.

(** The value-initialised client that [std::map::operator[]] creates for a
    missing key: scalar members zeroed, then the default member
    initialisers ([mIsNativeEndian = true], [mDoingIO = false]) and the
    empty [CACFString]. *)
Definition default_client : RDC_Client :=
  {| mClientID := 0; mProcessID := 0; mIsNativeEndian := true;
     mBundleID := None; mDoingIO := false |}.

Global Instance RDC_Client_inhabited : Inhabited RDC_Client :=
  populate default_client.

Definition set_mDoingIO (b : bool) (c : RDC_Client) : RDC_Client :=
  {| mClientID := mClientID c; mProcessID := mProcessID c;
     mIsNativeEndian := mIsNativeEndian c; mBundleID := mBundleID c;
     mDoingIO := b |}.

(** ** RDC_ClientMap *)

Module ClientMap.

(** An [RDC_Client*] held by a secondary index points at a node of the
    client-ID map on the same side (main or shadow). Nodes of a [std::map]
    keep their address until erased and [swap] moves the nodes with the
    container, so such a pointer is modelled by the key of the node it
    points at, resolved in the client-ID map of the side the index is
    currently on. *)
Abbreviation ClientPtr := Z.
Abbreviation RDC_ClientPtrList := (list ClientPtr).

Record t := mk {
  mClientMap : gmap Z RDC_Client;
  mClientMapShadow : gmap Z RDC_Client;
  mClientMapByPID : gmap Z RDC_ClientPtrList;
  mClientMapByPIDShadow : gmap Z RDC_ClientPtrList;
  mClientMapByBundleID : gmap string RDC_ClientPtrList;
  mClientMapByBundleIDShadow : gmap string RDC_ClientPtrList;
  mPastClientMap : gmap string RDC_Client
}.

(** The freshly constructed object: every map empty. *)
Definition init : t :=
  {| mClientMap := ∅; mClientMapShadow := ∅;
     mClientMapByPID := ∅; mClientMapByPIDShadow := ∅;
     mClientMapByBundleID := ∅; mClientMapByBundleIDShadow := ∅;
     mPastClientMap := ∅ |}.

Definition with_ClientMapShadow (f : gmap Z RDC_Client -> gmap Z RDC_Client) (s : t) : t :=
  {| mClientMap := mClientMap s; mClientMapShadow := f (mClientMapShadow s);
     mClientMapByPID := mClientMapByPID s;
     mClientMapByPIDShadow := mClientMapByPIDShadow s;
     mClientMapByBundleID := mClientMapByBundleID s;
     mClientMapByBundleIDShadow := mClientMapByBundleIDShadow s;
     mPastClientMap := mPastClientMap s |}.

Definition with_ClientMapByPIDShadow
    (f : gmap Z RDC_ClientPtrList -> gmap Z RDC_ClientPtrList) (s : t) : t :=
  {| mClientMap := mClientMap s; mClientMapShadow := mClientMapShadow s;
     mClientMapByPID := mClientMapByPID s;
     mClientMapByPIDShadow := f (mClientMapByPIDShadow s);
     mClientMapByBundleID := mClientMapByBundleID s;
     mClientMapByBundleIDShadow := mClientMapByBundleIDShadow s;
     mPastClientMap := mPastClientMap s |}.

Definition with_ClientMapByBundleID
    (f : gmap string RDC_ClientPtrList -> gmap string RDC_ClientPtrList) (s : t) : t :=
  {| mClientMap := mClientMap s; mClientMapShadow := mClientMapShadow s;
     mClientMapByPID := mClientMapByPID s;
     mClientMapByPIDShadow := mClientMapByPIDShadow s;
     mClientMapByBundleID := f (mClientMapByBundleID s);
     mClientMapByBundleIDShadow := mClientMapByBundleIDShadow s;
     mPastClientMap := mPastClientMap s |}.

Definition with_ClientMapByBundleIDShadow
    (f : gmap string RDC_ClientPtrList -> gmap string RDC_ClientPtrList) (s : t) : t :=
  {| mClientMap := mClientMap s; mClientMapShadow := mClientMapShadow s;
     mClientMapByPID := mClientMapByPID s;
     mClientMapByPIDShadow := mClientMapByPIDShadow s;
     mClientMapByBundleID := mClientMapByBundleID s;
     mClientMapByBundleIDShadow := f (mClientMapByBundleIDShadow s);
     mPastClientMap := mPastClientMap s |}.

Definition with_PastClientMap
    (f : gmap string RDC_Client -> gmap string RDC_Client) (s : t) : t :=
  {| mClientMap := mClientMap s; mClientMapShadow := mClientMapShadow s;
     mClientMapByPID := mClientMapByPID s;
     mClientMapByPIDShadow := mClientMapByPIDShadow s;
     mClientMapByBundleID := mClientMapByBundleID s;
     mClientMapByBundleIDShadow := mClientMapByBundleIDShadow s;
     mPastClientMap := f (mPastClientMap s) |}.

(** [map.count(key)]. *)
Definition count {K} `{Countable K} {V} (m : gmap K V) (k : K) : Z :=
  match m !! k with Some _ => 1 | None => 0 end.

(** [map[key].push_back(p)]: [operator[]] creates the empty vector when the
    key is missing. *)
Definition push_back_at {K} `{Countable K} (k : K) (p : ClientPtr)
    (m : gmap K RDC_ClientPtrList) : gmap K RDC_ClientPtrList :=
  <[k := (m !!! k) ++ [p]]> m.

(** [map[key].mDoingIO = b]: [operator[]] creates a value-initialised
    client when the key is missing. *)
Definition assign_mDoingIO (k : Z) (b : bool) (m : gmap Z RDC_Client) : gmap Z RDC_Client :=
  <[k := set_mDoingIO b (m !!! k)]> m.

(** [SwapInShadowMapsRT]: the three [swap] calls. *)
Definition SwapInShadowMapsRT : M t unit :=
  modify (fun s =>
    {| mClientMap := mClientMapShadow s; mClientMapShadow := mClientMap s;
       mClientMapByPID := mClientMapByPIDShadow s;
       mClientMapByPIDShadow := mClientMapByPID s;
       mClientMapByBundleID := mClientMapByBundleIDShadow s;
       mClientMapByBundleIDShadow := mClientMapByBundleID s;
       mPastClientMap := mPastClientMap s |}).

(** [SwapInShadowMaps] queues [kRDCTaskSwapClientShadowMaps] synchronously
    on the realtime worker, whose handler calls [SwapInShadowMapsRT];
    [QueueSync] comes back once the task is complete, so for the calling
    thread, which holds the shadow-maps mutex throughout, the call is the
    swap itself. A failing Mach semaphore call is not modelled. *)
Definition SwapInShadowMaps : M t unit := SwapInShadowMapsRT.

Definition AddClientToShadowMaps (inClient : RDC_Client) : M t unit :=
  do s <- get;;
  ThrowIf (negb (count (mClientMapShadow s) (mClientID inClient) =? 0))
          RDC_InvalidClientException;;
  modify (with_ClientMapShadow <[mClientID inClient := inClient]>);;
  modify (with_ClientMapByPIDShadow
            (push_back_at (mProcessID inClient) (mClientID inClient)));;
  match mBundleID inClient with
  | Some b =>
      modify (with_ClientMapByBundleIDShadow (push_back_at b (mClientID inClient)))
  | None => ret tt
  end.

Definition AddClient (inClient : RDC_Client) : M t unit :=
  AddClientToShadowMaps inClient;;
  SwapInShadowMaps;;
  AddClientToShadowMaps inClient;;
  match mBundleID inClient with
  | Some b => modify (with_PastClientMap <[b := inClient]>)
  | None => ret tt
  end.

(** The erasures that [RemoveClient] performs before and again after the
    swap. The bundle-ID erasure is written against [mClientMapByBundleID],
    not its shadow, in both places. *)
Definition erase_client (inClientID : Z) (theClient : RDC_Client) : M t unit :=
  modify (with_ClientMapShadow (delete inClientID));;
  modify (with_ClientMapByPIDShadow (delete (mProcessID theClient)));;
  match mBundleID theClient with
  | Some b => modify (with_ClientMapByBundleID (delete b))
  | None => ret tt
  end.

Definition RemoveClient (inClientID : Z) : M t RDC_Client :=
  do s <- get;;
  match mClientMapShadow s !! inClientID with
  | None => Throw RDC_InvalidClientException
  | Some theClient =>
      erase_client inClientID theClient;;
      SwapInShadowMaps;;
      erase_client inClientID theClient;;
      ret theClient
  end.

(** [GetClient]: the optional result stands for the [bool] return and the
    out-parameter, which is written only when the client is found. *)
Definition GetClient (inClientMap : gmap Z RDC_Client) (inClientID : Z) : option RDC_Client :=
  inClientMap !! inClientID.

Definition GetClientRT (inClientID : Z) (s : t) : option RDC_Client :=
  GetClient (mClientMap s) inClientID.

Definition GetClientNonRT (inClientID : Z) (s : t) : option RDC_Client :=
  GetClient (mClientMapShadow s) inClientID.

Definition UpdateClientIOStateNonRT (inClientID : Z) (inDoingIO : bool) : M t unit :=
  modify (with_ClientMapShadow (assign_mDoingIO inClientID inDoingIO));;
  SwapInShadowMaps;;
  modify (with_ClientMapShadow (assign_mDoingIO inClientID inDoingIO)).

Definition StartIONonRT (inClientID : Z) : M t unit :=
  UpdateClientIOStateNonRT inClientID true.
Definition StopIONonRT (inClientID : Z) : M t unit :=
  UpdateClientIOStateNonRT inClientID false.

(** Dereferencing a pointer list against a client-ID map; [None] stands for
    a pointer whose node has been erased. *)
Definition deref (m : gmap Z RDC_Client) (l : RDC_ClientPtrList) : list (option RDC_Client) :=
  (fun p => m !! p) <$> l.

Definition GetClientsByPID (inPID : Z) (s : t) : list (option RDC_Client) :=
  match mClientMapByPIDShadow s !! inPID with
  | Some ptrs => deref (mClientMapShadow s) ptrs
  | None => []
  end.

(** *** Sequences of mutator calls *)

Inductive mutator :=
| CallAddClient (c : RDC_Client)
| CallRemoveClient (id : Z)
| CallStartIONonRT (id : Z)
| CallStopIONonRT (id : Z).

Definition call (m : mutator) (s : t) : t :=
  match m with
  | CallAddClient c => state_after (AddClient c) s
  | CallRemoveClient id => state_after (RemoveClient id) s
  | CallStartIONonRT id => state_after (StartIONonRT id) s
  | CallStopIONonRT id => state_after (StopIONonRT id) s
  end.

Definition run (ms : list mutator) (s : t) : t := foldl (fun s m => call m s) s ms.

Definition reachable (s : t) : Prop := exists ms, s = run ms init.

(** *** Main/shadow equality *)

(** Deep equality of the main maps and their shadows: the client-ID maps
    hold equal values under equal keys, and the indices have the same keys
    with, under each key, pointer lists that dereference (each on its own
    side) to the same clients in the same order. *)
Definition deep_equal (s : t) : Prop :=
  mClientMap s = mClientMapShadow s /\
  deref (mClientMap s) <$> mClientMapByPID s
    = deref (mClientMapShadow s) <$> mClientMapByPIDShadow s /\
  deref (mClientMap s) <$> mClientMapByBundleID s
    = deref (mClientMapShadow s) <$> mClientMapByBundleIDShadow s.

(** The stronger, structural form: equal maps and equal pointer lists. *)
Definition at_rest (s : t) : Prop :=
  mClientMap s = mClientMapShadow s /\
  mClientMapByPID s = mClientMapByPIDShadow s /\
  mClientMapByBundleID s = mClientMapByBundleIDShadow s.

(** Every pointer of a secondary index refers to a client present in the
    client-ID map, filed under that client's own process or bundle ID. *)
Definition indices_valid (s : t) : Prop :=
  (forall pid l p, mClientMapByPIDShadow s !! pid = Some l -> p ∈ l ->
     exists c, mClientMapShadow s !! p = Some c /\ mProcessID c = pid) /\
  (forall b l p, mClientMapByBundleIDShadow s !! b = Some l -> p ∈ l ->
     exists c, mClientMapShadow s !! p = Some c /\ mBundleID c = Some b).

Definition wf (s : t) : Prop := at_rest s /\ indices_valid s.

(** *** Net effect of the mutators on a map at rest *)

Definition erase_bundle (b : option string)
    (m : gmap string RDC_ClientPtrList) : gmap string RDC_ClientPtrList :=
  match b with Some k => delete k m | None => m end.

Definition push_bundle (b : option string) (p : ClientPtr)
    (m : gmap string RDC_ClientPtrList) : gmap string RDC_ClientPtrList :=
  match b with Some k => push_back_at k p m | None => m end.

Definition remember (c : RDC_Client) (m : gmap string RDC_Client) : gmap string RDC_Client :=
  match mBundleID c with Some k => <[k := c]> m | None => m end.

Definition added (c : RDC_Client) (s : t) : t :=
  {| mClientMap := <[mClientID c := c]> (mClientMapShadow s);
     mClientMapShadow := <[mClientID c := c]> (mClientMap s);
     mClientMapByPID := push_back_at (mProcessID c) (mClientID c) (mClientMapByPIDShadow s);
     mClientMapByPIDShadow := push_back_at (mProcessID c) (mClientID c) (mClientMapByPID s);
     mClientMapByBundleID := push_bundle (mBundleID c) (mClientID c) (mClientMapByBundleIDShadow s);
     mClientMapByBundleIDShadow := push_bundle (mBundleID c) (mClientID c) (mClientMapByBundleID s);
     mPastClientMap := remember c (mPastClientMap s) |}.

Definition removed (id : Z) (c : RDC_Client) (s : t) : t :=
  {| mClientMap := delete id (mClientMapShadow s);
     mClientMapShadow := delete id (mClientMap s);
     mClientMapByPID := delete (mProcessID c) (mClientMapByPIDShadow s);
     mClientMapByPIDShadow := delete (mProcessID c) (mClientMapByPID s);
     mClientMapByBundleID := erase_bundle (mBundleID c) (mClientMapByBundleIDShadow s);
     mClientMapByBundleIDShadow := erase_bundle (mBundleID c) (mClientMapByBundleID s);
     mPastClientMap := mPastClientMap s |}.

Definition updated (id : Z) (b : bool) (s : t) : t :=
  {| mClientMap := assign_mDoingIO id b (mClientMapShadow s);
     mClientMapShadow := assign_mDoingIO id b (mClientMap s);
     mClientMapByPID := mClientMapByPIDShadow s;
     mClientMapByPIDShadow := mClientMapByPID s;
     mClientMapByBundleID := mClientMapByBundleIDShadow s;
     mClientMapByBundleIDShadow := mClientMapByBundleID s;
     mPastClientMap := mPastClientMap s |}.

(** *** Records created by an IO-state update *)

(** What a call finds afterwards when it has created a record for [id]:
    the call returned, both client-ID maps hold the value-initialised client
    with [mDoingIO] set to [b] under [id], and no pointer list of any index
    names [id]. *)
Definition phantom_record (id : Z) (b : bool) (r : outcome unit) (s' : t) : Prop :=
  r = Returned tt /\
  mClientMap s' !! id = Some (set_mDoingIO b default_client) /\
  mClientMapShadow s' !! id = Some (set_mDoingIO b default_client) /\
  (forall pid l, mClientMapByPID s' !! pid = Some l -> id ∉ l) /\
  (forall pid l, mClientMapByPIDShadow s' !! pid = Some l -> id ∉ l) /\
  (forall k l, mClientMapByBundleID s' !! k = Some l -> id ∉ l) /\
  (forall k l, mClientMapByBundleIDShadow s' !! k = Some l -> id ∉ l).

(** A map with one registered client, used to exercise the properties. *)
Definition registered_7 : t :=
  state_after (AddClient (mkClient 7 100 true (Some "a"%string) false)) init.

End ClientMap.

(** ** Views of an RDC_ClientMap *)

Module ClientMapViews.
Import ClientMap.

(** What the past-client map is expected to hold: clients filed under
    their own bundle ID, with an entry for the bundle ID of every client
    that is registered. *)
Definition past_clients_cover (s : t) : Prop :=
  (forall b c, mPastClientMap s !! b = Some c -> mBundleID c = Some b) /\
  (forall id c b, mClientMapShadow s !! id = Some c -> mBundleID c = Some b ->
     is_Some (mPastClientMap s !! b)).

(** Two clients of one process, used to exercise the properties. *)
Definition two_clients_of_100 : t :=
  run [CallAddClient (mkClient 1 100 true (Some "a"%string) false);
       CallAddClient (mkClient 2 100 true None false)] init.

End ClientMapViews.

(** ** RDC_Clients *)

Module Clients.

Definition UINT64_MAX : Z := 2 ^ 64 - 1.

(** A property-changed notification handed to the global serial dispatch
    queue for the host. *)
Inductive HostNotification :=
| kAudioDevicePropertyDeviceIsRunning (inDeviceID : Z).

(** [dispatched] is not a member of the class: it records, oldest first, the
    blocks that [SendIORunningNotifications] has put on the dispatch
    queue. *)
Record t := mk {
  mOwnerDeviceID : Z;
  mClientMap : ClientMap.t;
  mStartCount : Z;
  dispatched : list HostNotification
}.

Definition init (inOwnerDeviceID : Z) : t :=
  {| mOwnerDeviceID := inOwnerDeviceID; mClientMap := ClientMap.init;
     mStartCount := 0; dispatched := [] |}.

(** A call on the [mClientMap] member. *)
Definition onClientMap {A} (m : M ClientMap.t A) : M t A :=
  fun s =>
    let (r, cm) := m (mClientMap s) in
    (r, {| mOwnerDeviceID := mOwnerDeviceID s; mClientMap := cm;
           mStartCount := mStartCount s; dispatched := dispatched s |}).

Definition with_StartCount (f : Z -> Z) (s : t) : t :=
  {| mOwnerDeviceID := mOwnerDeviceID s; mClientMap := mClientMap s;
     mStartCount := f (mStartCount s); dispatched := dispatched s |}.

Definition AddClient (inClient : RDC_Client) : M t unit :=
  onClientMap (ClientMap.AddClient inClient).

Definition RemoveClient (inClientID : Z) : M t unit :=
  onClientMap (ClientMap.RemoveClient inClientID);; ret tt.

Definition SendIORunningNotifications (sendIsRunningNotification : bool) : M t unit :=
  if sendIsRunningNotification then
    modify (fun s =>
      {| mOwnerDeviceID := mOwnerDeviceID s; mClientMap := mClientMap s;
         mStartCount := mStartCount s;
         dispatched := dispatched s
                         ++ [kAudioDevicePropertyDeviceIsRunning (mOwnerDeviceID s)] |})
  else ret tt.

(** [mStartCount] is a UInt64: [++] and [--] wrap modulo 2^64. *)
Definition StartIONonRT (inClientID : Z) : M t bool :=
  do s <- get;;
  match ClientMap.GetClientNonRT inClientID (mClientMap s) with
  | None => Throw RDC_InvalidClientException
  | Some theClient =>
      do didStartIO <-
        (if negb (mDoingIO theClient) then
           ThrowIf (mStartCount s =? UINT64_MAX)
                   (CAException kAudioHardwareIllegalOperationError);;
           onClientMap (ClientMap.StartIONonRT inClientID);;
           modify (with_StartCount (fun n => (n + 1) mod 2 ^ 64));;
           do s' <- get;;
           ret (mStartCount s' =? 1)
         else ret false);;
      SendIORunningNotifications didStartIO;;
      ret didStartIO
  end.

Definition StopIONonRT (inClientID : Z) : M t bool :=
  do s <- get;;
  match ClientMap.GetClientNonRT inClientID (mClientMap s) with
  | None => Throw RDC_InvalidClientException
  | Some theClient =>
      do didStopIO <-
        (if mDoingIO theClient then
           onClientMap (ClientMap.StopIONonRT inClientID);;
           do s1 <- get;;
           ThrowIf (mStartCount s1 <=? 0)
                   (CAException kAudioHardwareIllegalOperationError);;
           modify (with_StartCount (fun n => (n - 1) mod 2 ^ 64));;
           do s' <- get;;
           ret (mStartCount s' =? 0)
         else ret false);;
      SendIORunningNotifications didStopIO;;
      ret didStopIO
  end.

Definition ClientsRunningIO (s : t) : bool := 0 <? mStartCount s.

(** *** Net effect of a start and of a stop *)

(** The state a first-time start leaves, and the state a counted stop
    leaves. *)
Definition started (id : Z) (s : t) : t :=
  {| mOwnerDeviceID := mOwnerDeviceID s;
     mClientMap := ClientMap.updated id true (mClientMap s);
     mStartCount := mStartCount s + 1;
     dispatched :=
       if mStartCount s =? 0
       then dispatched s ++ [kAudioDevicePropertyDeviceIsRunning (mOwnerDeviceID s)]
       else dispatched s |}.

Definition stopped (id : Z) (s : t) : t :=
  {| mOwnerDeviceID := mOwnerDeviceID s;
     mClientMap := ClientMap.updated id false (mClientMap s);
     mStartCount := mStartCount s - 1;
     dispatched :=
       if mStartCount s =? 1
       then dispatched s ++ [kAudioDevicePropertyDeviceIsRunning (mOwnerDeviceID s)]
       else dispatched s |}.

(** The start half of the reference-count rule read without its guard: a
    registered client that is not doing IO is marked as doing IO and the
    count goes up by one. *)
Definition start_always_counts (s : t) (id : Z) : Prop :=
  forall c,
    ClientMap.GetClientNonRT id (mClientMap s) = Some c -> mDoingIO c = false ->
    let s' := state_after (StartIONonRT id) s in
    ClientMap.GetClientNonRT id (mClientMap s') = Some (set_mDoingIO true c) /\
    mStartCount s' = mStartCount s + 1.

Definition one_idle_client_count_maxed : t :=
  {| mOwnerDeviceID := 2;
     mClientMap := state_after (ClientMap.AddClient (mkClient 1 100 true None false))
                     ClientMap.init;
     mStartCount := UINT64_MAX;
     dispatched := [] |}.

(** Registries used to exercise the properties. *)
Definition two_clients_one_busy : t :=
  state_after (StartIONonRT 1)
    (state_after (AddClient (mkClient 2 200 true None false))
       (state_after (AddClient (mkClient 1 100 true (Some "a"%string) false))
          (init 2))).

End Clients.

(** ** The calls RDC_Device makes on its RDC_Clients *)

(** The fields of CoreAudio's [AudioServerPlugInClientInfo] that
    [RDC_Client]'s constructor reads. *)
Module AudioServerPlugInClientInfo.
Record t := mk {
  mClientID : Z;
  mProcessID : Z;
  mIsNativeEndian : bool;
  mBundleID : option string
}.
End AudioServerPlugInClientInfo.

Module DeviceClients.

(** The constructor of [RDC_Client] from a client-info pointer: the four
    fields are copied, [mDoingIO] keeps its default member initialiser. *)
Definition RDC_Client_from (inClientInfo : AudioServerPlugInClientInfo.t) : RDC_Client :=
  {| mClientID := AudioServerPlugInClientInfo.mClientID inClientInfo;
     mProcessID := AudioServerPlugInClientInfo.mProcessID inClientInfo;
     mIsNativeEndian := AudioServerPlugInClientInfo.mIsNativeEndian inClientInfo;
     mBundleID := AudioServerPlugInClientInfo.mBundleID inClientInfo;
     mDoingIO := false |}.

(** [RDC_Device::AddClient] and [RDC_Device::RemoveClient], as far as
    [mClients] is concerned. *)
Definition AddClient (inClientInfo : AudioServerPlugInClientInfo.t) : M Clients.t unit :=
  Clients.AddClient (RDC_Client_from inClientInfo).

Definition RemoveClient (inClientInfo : AudioServerPlugInClientInfo.t) : M Clients.t unit :=
  Clients.RemoveClient (AudioServerPlugInClientInfo.mClientID inClientInfo).

(** The calls that reach an [RDC_Clients] object: the two above, and
    [StartIONonRT] and [StopIONonRT], which only [RDC_TaskQueue] may call
    (through [RDC_ClientTasks]). *)
Inductive call :=
| CallAddClient (inClientInfo : AudioServerPlugInClientInfo.t)
| CallRemoveClient (inClientInfo : AudioServerPlugInClientInfo.t)
| CallStartIONonRT (inClientID : Z)
| CallStopIONonRT (inClientID : Z).

Definition perform (c : call) (s : Clients.t) : Clients.t :=
  match c with
  | CallAddClient i => state_after (AddClient i) s
  | CallRemoveClient i => state_after (RemoveClient i) s
  | CallStartIONonRT id => state_after (Clients.StartIONonRT id) s
  | CallStopIONonRT id => state_after (Clients.StopIONonRT id) s
  end.

(** The registry of device [inOwnerDeviceID] after the calls [cs], oldest
    first. *)
Definition history (inOwnerDeviceID : Z) (cs : list call) : Clients.t :=
  foldl (fun s c => perform c s) (Clients.init inOwnerDeviceID) cs.

(** The number of registered clients whose [mDoingIO] is set. *)
Definition clients_doing_IO (s : Clients.t) : Z :=
  Z.of_nat (size (filter (fun kc : Z * RDC_Client => mDoingIO kc.2 = true)
                    (ClientMap.mClientMapShadow (Clients.mClientMap s)))).

(** Every record is filed under its own client ID. *)
Definition filed_under_own_ID (s : Clients.t) : Prop :=
  forall id c,
    ClientMap.GetClientNonRT id (Clients.mClientMap s) = Some c -> mClientID c = id.

Definition consistent (s : Clients.t) : Prop :=
  ClientMap.wf (Clients.mClientMap s) /\
  filed_under_own_ID s /\
  clients_doing_IO s <= Clients.mStartCount s <= Clients.UINT64_MAX.

(** One client, registered, started and removed while doing IO. *)
Definition client_1 : AudioServerPlugInClientInfo.t :=
  AudioServerPlugInClientInfo.mk 1 100 true (Some "a"%string).

Definition removed_while_running : list call :=
  [CallAddClient client_1; CallStartIONonRT 1].

(** A client without a bundle ID, and the calls that register it, start it
    and remove it while it is doing IO. *)
Definition client_without_bundle : AudioServerPlugInClientInfo.t :=
  AudioServerPlugInClientInfo.mk 1 100 true None.

Definition start_and_abandon : list call :=
  [CallAddClient client_without_bundle; CallStartIONonRT 1;
   CallRemoveClient client_without_bundle].

End DeviceClients.

(** ** CARingBuffer *)

Module RingBuffer.

(** The declarations of PublicUtility/CARingBuffer.h. *)
Definition kCARingBufferError_OK : Z := 0.
Definition kCARingBufferError_TooMuch : Z := 3.
Definition kCARingBufferError_CPUOverload : Z := 4.

Definition kGeneralRingTimeBoundsQueueSize : Z := 32.
Definition kGeneralRingTimeBoundsQueueMask : Z := kGeneralRingTimeBoundsQueueSize - 1.

Record TimeBounds := mkBounds {
  mStartTime : Z;
  mEndTime : Z;
  mUpdateCounter : Z
}.

Global Instance TimeBounds_inhabited : Inhabited TimeBounds :=
  populate (mkBounds 0 0 0).

(** [mBuffers] is the backing storage, one contiguous byte region. *)
Record t := mk {
  mBuffers : list byte;
  mNumberChannels : Z;
  mBytesPerFrame : Z;
  mCapacityFrames : Z;
  mCapacityFramesMask : Z;
  mCapacityBytes : Z;
  mTimeBoundsQueue : list TimeBounds;
  mTimeBoundsQueuePtr : Z
}.

(** The inline members of the header. [FrameOffset] returns a UInt32. *)
Definition FrameOffset (rb : t) (frameNumber : Z) : Z :=
  (Z.land frameNumber (mCapacityFramesMask rb) * mBytesPerFrame rb) mod 2 ^ 32.

Definition current_slot (rb : t) : TimeBounds :=
  mTimeBoundsQueue rb
    !!! Z.to_nat (Z.land (mTimeBoundsQueuePtr rb) kGeneralRingTimeBoundsQueueMask).

Definition StartTime (rb : t) : Z := mStartTime (current_slot rb).
Definition EndTime (rb : t) : Z := mEndTime (current_slot rb).

(** *** Byte regions with wrap-around *)

Definition write_at (st : list byte) (off : nat) (data : list byte) : list byte :=
  take off st ++ data ++ drop (off + length data) st.

Definition read_at (st : list byte) (off len : nat) : list byte :=
  take len (drop off st).

(** Writing [data] at byte offset [off], continuing at offset 0 when the
    end of the region is reached. *)
Definition write_wrap (st : list byte) (off : nat) (data : list byte) : list byte :=
  let room := (length st - off)%nat in
  if (length data <=? room)%nat then write_at st off data
  else write_at (write_at st off (take room data)) 0 (drop room data).

Definition read_wrap (st : list byte) (off len : nat) : list byte :=
  let room := (length st - off)%nat in
  if (len <=? room)%nat then read_at st off len
  else read_at st off room ++ read_at st 0 (len - room).

Definition zeros (n : nat) : list byte := replicate n x00.

(** *** The operations *)

(** Modelled from the spec: CARingBuffer.cpp is not among the sources, so
    [Allocate], [SetTimeBounds], [GetTimeBounds], [Store] and [Fetch] below
    follow section 4.1 of the specification step by step, on the data
    members the header declares. *)
Definition NextPowerOfTwo (n : Z) : Z := 2 ^ Z.log2_up n.

(** Modelled from the spec: Allocate rounds the capacity up to a power of
    two, allocates the backing storage (zero-filled here) and sets every
    time-bounds slot to (0, 0, 0) and the sequence counter to 0. *)
Definition Allocate (nChannels bytesPerFrame capacityFrames : Z) : t :=
  let cap := NextPowerOfTwo capacityFrames in
  {| mBuffers := zeros (Z.to_nat (cap * bytesPerFrame));
     mNumberChannels := nChannels;
     mBytesPerFrame := bytesPerFrame;
     mCapacityFrames := cap;
     mCapacityFramesMask := cap - 1;
     mCapacityBytes := cap * bytesPerFrame;
     mTimeBoundsQueue :=
       replicate (Z.to_nat kGeneralRingTimeBoundsQueueSize) (mkBounds 0 0 0);
     mTimeBoundsQueuePtr := 0 |}.

Definition with_bounds (q : list TimeBounds) (head : Z) (rb : t) : t :=
  {| mBuffers := mBuffers rb; mNumberChannels := mNumberChannels rb;
     mBytesPerFrame := mBytesPerFrame rb; mCapacityFrames := mCapacityFrames rb;
     mCapacityFramesMask := mCapacityFramesMask rb;
     mCapacityBytes := mCapacityBytes rb;
     mTimeBoundsQueue := q; mTimeBoundsQueuePtr := head |}.

Definition with_buffers (b : list byte) (rb : t) : t :=
  {| mBuffers := b; mNumberChannels := mNumberChannels rb;
     mBytesPerFrame := mBytesPerFrame rb; mCapacityFrames := mCapacityFrames rb;
     mCapacityFramesMask := mCapacityFramesMask rb;
     mCapacityBytes := mCapacityBytes rb;
     mTimeBoundsQueue := mTimeBoundsQueue rb;
     mTimeBoundsQueuePtr := mTimeBoundsQueuePtr rb |}.

(** Modelled from the spec: SetTimeBounds writes the bounds and then the
    update counter of slot (boundsHead + 1) mod 32, then advances
    boundsHead; both counters are 32-bit. *)
Definition SetTimeBounds (startTime endTime : Z) (rb : t) : t :=
  let head := mTimeBoundsQueuePtr rb in
  let nextIndex := (head + 1) mod kGeneralRingTimeBoundsQueueSize in
  let counter := (head + 1) mod 2 ^ 32 in
  with_bounds
    (<[Z.to_nat nextIndex := mkBounds startTime endTime counter]> (mTimeBoundsQueue rb))
    counter rb.

Inductive bounds_result :=
| Bounds (startTime endTime : Z)
| BoundsCPUOverload.

(** Modelled from the spec: one attempt loads boundsHead, the slot's
    counter, the bounds and the counter again, and succeeds when both
    counter reads equal the boundsHead first loaded; [attempts] bounds the
    retries. *)
Fixpoint GetTimeBounds_retry (attempts : nat) (rb : t) : bounds_result :=
  match attempts with
  | O => BoundsCPUOverload
  | S n =>
      let head := mTimeBoundsQueuePtr rb in
      let i := Z.to_nat (head mod kGeneralRingTimeBoundsQueueSize) in
      let c1 := mUpdateCounter (mTimeBoundsQueue rb !!! i) in
      let startTime := mStartTime (mTimeBoundsQueue rb !!! i) in
      let endTime := mEndTime (mTimeBoundsQueue rb !!! i) in
      let c2 := mUpdateCounter (mTimeBoundsQueue rb !!! i) in
      if (c1 =? head) && (c2 =? head) then Bounds startTime endTime
      else GetTimeBounds_retry n rb
  end.

Definition GetTimeBounds (rb : t) : bounds_result := GetTimeBounds_retry 8 rb.

(** Modelled from the spec: the Store algorithm, steps 1 to 7. A store that
    starts before the current start time (step 4) is outside the caller
    contract; the steps that follow are applied as they stand. *)
Definition Store (frames : list byte) (nFrames frameNumber : Z) (rb : t) : Z * t :=
  let startWrite := frameNumber in
  let endWrite := frameNumber + nFrames in
  if mCapacityFrames rb <? nFrames then (kCARingBufferError_TooMuch, rb)
  else
    match GetTimeBounds rb with
    | BoundsCPUOverload => (kCARingBufferError_CPUOverload, rb)
    | Bounds curStart0 curEnd0 =>
        let gap := startWrite - curEnd0 in
        let emptied := (curEnd0 <? startWrite) && (mCapacityFrames rb <? gap) in
        let curStart := if emptied then startWrite else curStart0 in
        let curEnd := if emptied then startWrite else curEnd0 in
        let zeroed :=
          if (curEnd0 <? startWrite) && negb emptied
          then write_wrap (mBuffers rb) (Z.to_nat (FrameOffset rb curEnd0))
                 (zeros (Z.to_nat (gap * mBytesPerFrame rb)))
          else mBuffers rb in
        let stored :=
          write_wrap zeroed (Z.to_nat (FrameOffset rb frameNumber))
            (take (Z.to_nat (nFrames * mBytesPerFrame rb)) frames) in
        let newEnd := Z.max endWrite curEnd in
        let newStart :=
          Z.max (Z.max (newEnd - mCapacityFrames rb) curStart) startWrite in
        (kCARingBufferError_OK,
         SetTimeBounds newStart newEnd (with_buffers stored rb))
    end.

(** Modelled from the spec: the Fetch algorithm, steps 1 to 4. The result
    is the error code and the caller's buffer after the call. *)
Definition Fetch (outBuffer : list byte) (nFrames frameNumber : Z) (rb : t)
    : Z * list byte :=
  match GetTimeBounds rb with
  | BoundsCPUOverload => (kCARingBufferError_CPUOverload, outBuffer)
  | Bounds curStart curEnd =>
      let bpf := mBytesPerFrame rb in
      let startRead := Z.max frameNumber curStart in
      let endRead := Z.min (frameNumber + nFrames) curEnd in
      let rest := drop (Z.to_nat (nFrames * bpf)) outBuffer in
      if endRead <=? startRead
      then (kCARingBufferError_OK, zeros (Z.to_nat (nFrames * bpf)) ++ rest)
      else
        (kCARingBufferError_OK,
         zeros (Z.to_nat ((startRead - frameNumber) * bpf))
         ++ read_wrap (mBuffers rb) (Z.to_nat (FrameOffset rb startRead))
              (Z.to_nat ((endRead - startRead) * bpf))
         ++ zeros (Z.to_nat ((frameNumber + nFrames - endRead) * bpf))
         ++ rest)
  end.

(** The state invariant: a power-of-two capacity with its mask, storage of
    the capacity's size, 32 slots of which the one named by the sequence
    counter carries that counter, and current bounds no wider than the
    capacity. *)
Definition ok (rb : t) : Prop :=
  (exists k, 0 <= k /\ mCapacityFrames rb = 2 ^ k) /\
  mCapacityFramesMask rb = mCapacityFrames rb - 1 /\
  0 <= mBytesPerFrame rb /\
  mCapacityFrames rb * mBytesPerFrame rb < 2 ^ 32 /\
  length (mBuffers rb) = Z.to_nat (mCapacityFrames rb * mBytesPerFrame rb) /\
  length (mTimeBoundsQueue rb) = 32%nat /\
  0 <= mTimeBoundsQueuePtr rb < 2 ^ 32 /\
  mUpdateCounter (current_slot rb) = mTimeBoundsQueuePtr rb /\
  0 <= EndTime rb - StartTime rb <= mCapacityFrames rb.

(** A ring of eight two-byte frames, empty and after a first store, used
    to exercise the properties. *)
Definition ring8 : t := Allocate 1 2 8.
Definition frames_1234 : list byte := [x01; x02; x03; x04].
Definition after_store_0 : t := snd (Store frames_1234 2 0 ring8).

End RingBuffer.

(** ** RDC_Device: IO data paths, loopback clock, sample rate *)

Module Device.

(** A Float64 quantity (a sample rate, the host ticks per frame, a sample
    time) is represented by the rational number it denotes. Comparisons
    and conversions to integers are exact on these; every Float64
    product, quotient and sum, and every conversion of an integer to
    Float64, is rounded to binary64 by [binary64] below. NaN, infinities
    and the sign of zero are not represented. *)
Definition Float64 := Q.

Definition Qltb (x y : Q) : bool := negb (Qle_bool y x).

(** [static_cast] of a Float64 to an integer type discards the fraction. *)
Definition Qtrunc (x : Q) : Z := Z.quot (Qnum x) (Zpos (Qden x)).
Definition cast_UInt64 (x : Float64) : Z := Qtrunc x mod 2 ^ 64.
Definition cast_SInt64 (x : Float64) : Z := Qtrunc x.

(** *** Binary64 arithmetic *)

(** The integer nearest to [x], ties going to the even one. *)
Definition Qround_half_even (x : Q) : Z :=
  let f := Qfloor x in
  match (x - inject_Z f ?= 1 # 2)%Q with
  | Lt => f
  | Gt => f + 1
  | Eq => if Z.even f then f else f + 1
  end.

(** For positive [x], the exponent [e] with 2^e <= x < 2^(e+1). *)
Definition Qlog2 (x : Q) : Z :=
  let e := Z.log2 (Qnum x) - Z.log2 (Zpos (Qden x)) in
  if Qle_bool (2 ^ e) x then e else e - 1.

(** The exponent of the last place of the binary64 numbers around a
    positive [x]: 53 significant bits, and no finer than 2^-1074, the
    spacing of the subnormal numbers. *)
Definition binary64_exponent (x : Q) : Z := Z.max (Qlog2 x - 52) (-1074).

Definition round_binary64 (x : Q) : Float64 :=
  let q := binary64_exponent x in
  Qred (inject_Z (Qround_half_even (x / 2 ^ q)) * 2 ^ q)%Q.

(** The binary64 number nearest to [x], ties going to the even
    significand: the rounding IEEE 754 prescribes for each arithmetic
    operation in the default rounding mode. Results beyond the largest
    finite binary64 number, which the hardware turns into an infinity, are
    left finite here. *)
Definition binary64 (x : Q) : Float64 :=
  match Qnum x with
  | 0 => 0%Q
  | Zpos _ => round_binary64 x
  | Zneg _ => (- round_binary64 (- x))%Q
  end.

Definition Float64_add (x y : Float64) : Float64 := binary64 (x + y).
Definition Float64_mul (x y : Float64) : Float64 := binary64 (x * y).
Definition Float64_div (x y : Float64) : Float64 := binary64 (x / y).

(** The conversion of an integer (a UInt32 or a UInt64 in the code) to
    Float64, explicit by [static_cast] or implicit in a mixed expression. *)
Definition cast_Float64 (n : Z) : Float64 := binary64 (inject_Z n).

(** The single [AudioBuffer] of the [AudioBufferList] that the IO paths
    wrap around the caller's memory; [mData] is the content of that
    memory. *)
Record AudioBuffer := mkAudioBuffer {
  mNumberChannels : Z;
  mDataByteSize : Z;
  mData : list byte
}.

Definition sizeof_Float32 : Z := 4.

(** [memset(buffer, 0, n)]. *)
Definition memset_zero (buffer : list byte) (n : Z) : list byte :=
  RingBuffer.zeros (Nat.min (Z.to_nat n) (length buffer)) ++ drop (Z.to_nat n) buffer.

(** The buffer list that Fetch hands back still describes the caller's
    whole buffer. *)
Definition describes (abl : AudioBuffer) (buffer : list byte) : Prop :=
  Z.to_nat (mDataByteSize abl) = length buffer /\
  length (mData abl) = length buffer.

Inductive ChangeAction := SetSampleRateAction | SetEnabledControlsAction.

Section WithRingBuffer.

(** The loopback ring buffer as the device uses it: [Allocate], and [Fetch]
    and [Store] on a one-buffer list, each giving back its error code;
    [Fetch] also gives back the buffer list, which it may alter. *)
Variable RB : Type.
Variable RB_Allocate : Z -> Z -> Z -> RB -> RB.
Variable RB_Fetch : RB -> AudioBuffer -> Z -> Z -> Z * AudioBuffer.
Variable RB_Store : RB -> AudioBuffer -> Z -> Z -> Z * RB.

(** [CAHostTimeBase::GetFrequency()]. *)
Variable hostFrequency : Float64.

(** [kLoopbackRingBufferFrameSize], a UInt32 constant declared in
    RDC_Device.h. *)
Variable kLoopbackRingBufferFrameSize : Z.

(** Modelled from the spec: [kSampleRateDefault] is declared in
    RDC_Device.h, which is not among the sources; the specification gives
    44100 Hz as the default sample rate. *)
Definition kSampleRateDefault : Float64 := 44100 # 1.

(** The members the modelled methods use. [mLoopbackTime] is flattened into
    its three fields; the tick count and the anchor are unsigned 64-bit
    integers. The two stream members are represented by the sample rate
    they hold. [requested] lists the configuration changes handed to the
    dispatch queue for [Host_RequestDeviceConfigurationChange]. The wrapped
    audio engine is not a field: the constructor sets it to null and
    nothing assigns it. *)
Record t := mk {
  mLoopbackSampleRate : Float64;
  mPendingSampleRate : Float64;
  hostTicksPerFrame : Float64;
  numberTimeStamps : Z;
  anchorHostTime : Z;
  mLoopbackRingBuffer : RB;
  mInputStream : Float64;
  mOutputStream : Float64;
  requested : list ChangeAction
}.

Definition GetSampleRate (s : t) : Float64 := mLoopbackSampleRate s.

Definition InitLoopback : M t unit :=
  modify (fun s =>
    {| mLoopbackSampleRate := mLoopbackSampleRate s;
       mPendingSampleRate := mPendingSampleRate s;
       hostTicksPerFrame := Float64_div hostFrequency (mLoopbackSampleRate s);
       numberTimeStamps := numberTimeStamps s;
       anchorHostTime := anchorHostTime s;
       mLoopbackRingBuffer :=
         RB_Allocate 1 (2 * sizeof_Float32) kLoopbackRingBufferFrameSize
           (mLoopbackRingBuffer s);
       mInputStream := mInputStream s;
       mOutputStream := mOutputStream s;
       requested := requested s |}).

Definition RequestSampleRate (inRequestedSampleRate : Float64) : M t unit :=
  ThrowIf (Qltb inRequestedSampleRate 1)
          (CAException kAudioDeviceUnsupportedFormatError);;
  do s <- get;;
  if negb (Qeq_bool inRequestedSampleRate (GetSampleRate s)) then
    modify (fun s =>
      {| mLoopbackSampleRate := mLoopbackSampleRate s;
         mPendingSampleRate := inRequestedSampleRate;
         hostTicksPerFrame := hostTicksPerFrame s;
         numberTimeStamps := numberTimeStamps s;
         anchorHostTime := anchorHostTime s;
         mLoopbackRingBuffer := mLoopbackRingBuffer s;
         mInputStream := mInputStream s;
         mOutputStream := mOutputStream s;
         requested := requested s ++ [SetSampleRateAction] |})
  else ret tt.

Definition SetSampleRate (inSampleRate : Float64) (force : bool) : M t unit :=
  ThrowIf (Qltb inSampleRate 1)
          (CAException kAudioDeviceUnsupportedFormatError);;
  do s <- get;;
  let theCurrentSampleRate := GetSampleRate s in
  if negb (Qeq_bool inSampleRate theCurrentSampleRate) || force then
    modify (fun s =>
      {| mLoopbackSampleRate := inSampleRate;
         mPendingSampleRate := mPendingSampleRate s;
         hostTicksPerFrame := hostTicksPerFrame s;
         numberTimeStamps := numberTimeStamps s;
         anchorHostTime := anchorHostTime s;
         mLoopbackRingBuffer := mLoopbackRingBuffer s;
         mInputStream := mInputStream s;
         mOutputStream := mOutputStream s;
         requested := requested s |});;
    InitLoopback;;
    modify (fun s =>
      {| mLoopbackSampleRate := mLoopbackSampleRate s;
         mPendingSampleRate := mPendingSampleRate s;
         hostTicksPerFrame := hostTicksPerFrame s;
         numberTimeStamps := numberTimeStamps s;
         anchorHostTime := anchorHostTime s;
         mLoopbackRingBuffer := mLoopbackRingBuffer s;
         mInputStream := inSampleRate;
         mOutputStream := inSampleRate;
         requested := requested s |})
  else ret tt.

(** [PerformConfigChange] for [ChangeAction::SetSampleRate]. *)
Definition PerformConfigChange_SetSampleRate : M t unit :=
  do s <- get;; SetSampleRate (mPendingSampleRate s) false.

(** The constructor: the members as the initialiser list leaves them
    ([unset] standing for the members it does not mention), then
    [SetSampleRate(kSampleRateDefault, true)]. *)
Definition construct (unset : t) : outcome unit * t :=
  SetSampleRate kSampleRateDefault true
    {| mLoopbackSampleRate := mLoopbackSampleRate unset;
       mPendingSampleRate := mPendingSampleRate unset;
       hostTicksPerFrame := hostTicksPerFrame unset;
       numberTimeStamps := numberTimeStamps unset;
       anchorHostTime := anchorHostTime unset;
       mLoopbackRingBuffer := mLoopbackRingBuffer unset;
       mInputStream := kSampleRateDefault;
       mOutputStream := kSampleRateDefault;
       requested := [] |}.

(** The range reported for [kAudioDevicePropertyAvailableNominalSampleRates]
    by [Device_GetPropertyData]: minimum and maximum. *)
Definition AvailableNominalSampleRates : Float64 * Float64 :=
  (1 # 1, 1000000000 # 1)%Q.

(** *** The loopback clock *)

(** [_HW_StartIO]; [theCurrentHostTime] is the value read from
    [CAHostTimeBase::GetTheCurrentTime()]. *)
Definition _HW_StartIO (theCurrentHostTime : Z) : M t Z :=
  modify (fun s =>
    {| mLoopbackSampleRate := mLoopbackSampleRate s;
       mPendingSampleRate := mPendingSampleRate s;
       hostTicksPerFrame := hostTicksPerFrame s;
       numberTimeStamps := 0;
       anchorHostTime := theCurrentHostTime;
       mLoopbackRingBuffer := mLoopbackRingBuffer s;
       mInputStream := mInputStream s;
       mOutputStream := mOutputStream s;
       requested := requested s |});;
  ret 0.

Record ZeroTimeStamp := mkZeroTimeStamp {
  outSampleTime : Float64;
  outHostTime : Z;
  outSeed : Z
}.

Definition with_numberTimeStamps (n : Z) (s : t) : t :=
  {| mLoopbackSampleRate := mLoopbackSampleRate s;
     mPendingSampleRate := mPendingSampleRate s;
     hostTicksPerFrame := hostTicksPerFrame s;
     numberTimeStamps := n;
     anchorHostTime := anchorHostTime s;
     mLoopbackRingBuffer := mLoopbackRingBuffer s;
     mInputStream := mInputStream s;
     mOutputStream := mOutputStream s;
     requested := requested s |}.

(** [theHostTicksPerRingBuffer]: the host ticks one ring of frames lasts. *)
Definition ticks_per_ring (s : t) : Float64 :=
  Float64_mul (hostTicksPerFrame s) (cast_Float64 kLoopbackRingBufferFrameSize).

(** The host ticks from the anchor to zero time stamp number [count]. *)
Definition tick_offset (s : t) (count : Z) : Float64 :=
  Float64_mul (cast_Float64 count) (ticks_per_ring s).

(** The host time of zero time stamp number [count], before its conversion
    to UInt64: the anchor is converted to Float64 for the addition. *)
Definition stamp_host_time (s : t) (count : Z) : Float64 :=
  Float64_add (cast_Float64 (anchorHostTime s)) (tick_offset s count).

(** [GetZeroTimeStamp], the branch without a wrapped engine. *)
Definition GetZeroTimeStamp (theCurrentHostTime : Z) : M t ZeroTimeStamp :=
  do s <- get;;
  let theHostTicksPerRingBuffer :=
    Float64_mul (hostTicksPerFrame s) (cast_Float64 kLoopbackRingBufferFrameSize) in
  let theHostTickOffset :=
    Float64_mul (cast_Float64 ((numberTimeStamps s + 1) mod 2 ^ 64))
      theHostTicksPerRingBuffer in
  let theNextHostTime :=
    (anchorHostTime s + cast_UInt64 theHostTickOffset) mod 2 ^ 64 in
  (if theNextHostTime <=? theCurrentHostTime
   then modify (with_numberTimeStamps ((numberTimeStamps s + 1) mod 2 ^ 64))
   else ret tt);;
  do s <- get;;
  ret {| outSampleTime :=
           cast_Float64 ((numberTimeStamps s * kLoopbackRingBufferFrameSize) mod 2 ^ 64);
         outHostTime :=
           cast_UInt64
             (Float64_add (cast_Float64 (anchorHostTime s))
                (Float64_mul (cast_Float64 (numberTimeStamps s))
                   theHostTicksPerRingBuffer));
         outSeed := 1 |}.

(** The tick count a call leaves, as the code computes it. *)
Definition next_count (s : t) (now : Z) : Z :=
  if (anchorHostTime s
      + cast_UInt64 (tick_offset s ((numberTimeStamps s + 1) mod 2 ^ 64)))
       mod 2 ^ 64 <=? now
  then (numberTimeStamps s + 1) mod 2 ^ 64
  else numberTimeStamps s.

(** The sample times handed out by the successive calls of a session, the
    calls being made at the host times [nows]. *)
Fixpoint session_sample_times (nows : list Z) (s : t) : list Float64 :=
  match nows with
  | [] => []
  | now :: rest =>
      match GetZeroTimeStamp now s with
      | (Returned stamp, s') => outSampleTime stamp :: session_sample_times rest s'
      | (Thrown _, _) => []
      end
  end.

(** *** The IO data paths *)

Definition wrap_buffer (inIOBufferFrameSize : Z) (buffer : list byte) : AudioBuffer :=
  {| mNumberChannels := 2;
     mDataByteSize := (inIOBufferFrameSize * sizeof_Float32 * 2) mod 2 ^ 32;
     mData := buffer |}.

(** [ReadInputData]: the result pairs how the call ended with the content
    of [outBuffer] afterwards. *)
Definition ReadInputData (inIOBufferFrameSize : Z) (inSampleTime : Float64)
    (outBuffer : list byte) (s : t) : outcome unit * list byte :=
  let (err, abl) :=
    RB_Fetch (mLoopbackRingBuffer s) (wrap_buffer inIOBufferFrameSize outBuffer)
      inIOBufferFrameSize (cast_SInt64 inSampleTime) in
  if err =? RingBuffer.kCARingBufferError_CPUOverload then
    (Returned tt, memset_zero (mData abl) (mDataByteSize abl))
  else if err =? RingBuffer.kCARingBufferError_TooMuch then
    (Thrown (CAException kAudioHardwareIllegalOperationError),
     memset_zero (mData abl) (mDataByteSize abl))
  else if err =? RingBuffer.kCARingBufferError_OK then
    (Returned tt, mData abl)
  else
    (Thrown (CAException kAudioHardwareUnspecifiedError), mData abl).

Definition with_RingBuffer (rb : RB) (s : t) : t :=
  {| mLoopbackSampleRate := mLoopbackSampleRate s;
     mPendingSampleRate := mPendingSampleRate s;
     hostTicksPerFrame := hostTicksPerFrame s;
     numberTimeStamps := numberTimeStamps s;
     anchorHostTime := anchorHostTime s;
     mLoopbackRingBuffer := rb;
     mInputStream := mInputStream s;
     mOutputStream := mOutputStream s;
     requested := requested s |}.

Definition WriteOutputData (inIOBufferFrameSize : Z) (inSampleTime : Float64)
    (inBuffer : list byte) : M t unit :=
  do s <- get;;
  let (err, rb) :=
    RB_Store (mLoopbackRingBuffer s) (wrap_buffer inIOBufferFrameSize inBuffer)
      inIOBufferFrameSize (cast_SInt64 inSampleTime) in
  modify (with_RingBuffer rb);;
  ThrowIf (negb (err =? RingBuffer.kCARingBufferError_OK)
           && negb (err =? RingBuffer.kCARingBufferError_CPUOverload))
          (CAException (RingBufferStatus err)).

End WithRingBuffer.

Arguments mk {RB}.
Arguments mLoopbackSampleRate {RB}.
Arguments mPendingSampleRate {RB}.
Arguments hostTicksPerFrame {RB}.
Arguments numberTimeStamps {RB}.
Arguments anchorHostTime {RB}.
Arguments mLoopbackRingBuffer {RB}.
Arguments mInputStream {RB}.
Arguments mOutputStream {RB}.
Arguments requested {RB}.
Arguments GetSampleRate {RB}.
Arguments InitLoopback {RB}.
Arguments RequestSampleRate {RB}.
Arguments SetSampleRate {RB}.
Arguments PerformConfigChange_SetSampleRate {RB}.
Arguments construct {RB}.
Arguments _HW_StartIO {RB}.
Arguments with_numberTimeStamps {RB}.
Arguments GetZeroTimeStamp {RB}.
Arguments ReadInputData {RB}.
Arguments with_RingBuffer {RB}.
Arguments WriteOutputData {RB}.
Arguments ticks_per_ring {RB}.
Arguments tick_offset {RB}.
Arguments stamp_host_time {RB}.
Arguments next_count {RB}.
Arguments session_sample_times {RB}.

End Device.

(** ** The device with the ring buffer of this development *)

Module Loopback.
Import Device.

Definition Allocate_rb (nChannels bytesPerFrame capacityFrames : Z)
    (_ : RingBuffer.t) : RingBuffer.t :=
  RingBuffer.Allocate nChannels bytesPerFrame capacityFrames.

Definition Fetch_abl (rb : RingBuffer.t) (abl : AudioBuffer) (nFrames frameNumber : Z)
    : Z * AudioBuffer :=
  let (err, out) := RingBuffer.Fetch (mData abl) nFrames frameNumber rb in
  (err, mkAudioBuffer (mNumberChannels abl) (mDataByteSize abl) out).

Definition Store_abl (rb : RingBuffer.t) (abl : AudioBuffer) (nFrames frameNumber : Z)
    : Z * RingBuffer.t :=
  RingBuffer.Store (mData abl) nFrames frameNumber rb.

(** A host clock that ticks in nanoseconds, and the ring size the
    specification suggests. *)
Definition nanosecond_ticks : Float64 := 1000000000 # 1.
Definition ring_frames : Z := 16384.

Definition Dev := Device.t RingBuffer.t.

Definition blank : Dev :=
  {| mLoopbackSampleRate := 0%Q; mPendingSampleRate := 0%Q;
     hostTicksPerFrame := 0%Q;
     numberTimeStamps := 0; anchorHostTime := 0;
     mLoopbackRingBuffer := RingBuffer.Allocate 1 8 0;
     mInputStream := 0%Q; mOutputStream := 0%Q; requested := [] |}.

Definition new_device : Dev :=
  snd (construct Allocate_rb nanosecond_ticks ring_frames blank).

(** A ring buffer caught with a time-bounds slot whose counter does not
    match the sequence counter: what a reader sees for as long as the
    writer is in the middle of an update. *)
Definition torn_ring : RingBuffer.t :=
  RingBuffer.with_bounds (replicate 32 (RingBuffer.mkBounds 0 0 7)) 0
    (RingBuffer.Allocate 1 8 4).

(** An IO cycle of 2^29 frames: its 2^32 bytes of samples, here all ones,
    and the device that reads them through a ring buffer caught in the
    middle of an update. *)
Definition four_GiB_of_ones : list byte := replicate (Z.to_nat (2 ^ 32)) x01.

Definition reading_torn_ring : Dev := with_RingBuffer torn_ring new_device.

(** The device at 44100 Hz on a nanosecond host clock, IO started at host
    time 0: one ring of 16384 frames lasts 371519274.376... ticks. *)
Definition started_at_0 : Dev :=
  state_after (_HW_StartIO 0) new_device.

End Loopback.

(** ** Status codes of the plug-in interface and of the controls *)

(** The status an entry point of the plug-in interface answers with, or a
    control throws in a [CAException]; [Carried] wraps a code of
    [OSStatus]. *)
Inductive HALStatus :=
| kAudioHardwareNoError
| kAudioHardwareBadObjectError
| kAudioHardwareBadPropertySizeError
| kAudioHardwareUnknownPropertyError
| E_NOINTERFACE
| Carried (status : OSStatus).

(** ** RDC_PlugInInterface: the reference count *)

Module PlugInInterface.

Definition UINT32_MAX : Z := 2 ^ 32 - 1.

(** [gAudioServerPlugInDriverRefCount] is a UInt32 that starts at 1. The
    functions take its value and give back their answer and its value
    afterwards. [isDriverRef] tells whether [inDriver] is
    [gAudioServerPlugInDriverRef]. *)
Definition gAudioServerPlugInDriverRefCount : Z := 1.

(** [RDC_QueryInterface]: [hasOutInterface] tells whether [outInterface]
    is non-null, [uuidCreated] whether [CFUUIDCreateFromUUIDBytes] gave a
    UUID, [supported] whether that UUID is [IUnknownUUID] or
    [kAudioServerPlugInDriverInterfaceUUID]. The exceptions thrown inside
    its try block are caught there and become the answer. *)
Definition RDC_QueryInterface (isDriverRef hasOutInterface uuidCreated supported : bool)
    (refCount : Z) : HALStatus * Z :=
  if negb isDriverRef then (kAudioHardwareBadObjectError, refCount)
  else if negb hasOutInterface
  then (Carried kAudioHardwareIllegalOperationError, refCount)
  else if negb uuidCreated
  then (Carried kAudioHardwareIllegalOperationError, refCount)
  else if negb supported then (E_NOINTERFACE, refCount)
  else if refCount =? UINT32_MAX then (E_NOINTERFACE, refCount)
  else (kAudioHardwareNoError, (refCount + 1) mod 2 ^ 32).

(** [RDC_AddRef] and [RDC_Release] answer with the count they leave, or
    with 0 when one of their two checks fails. *)
Definition RDC_AddRef (isDriverRef : bool) (refCount : Z) : Z * Z :=
  if negb isDriverRef then (0, refCount)
  else if refCount =? UINT32_MAX then (0, refCount)
  else ((refCount + 1) mod 2 ^ 32, (refCount + 1) mod 2 ^ 32).

Definition RDC_Release (isDriverRef : bool) (refCount : Z) : Z * Z :=
  if negb isDriverRef then (0, refCount)
  else if refCount =? UINT32_MAX then (0, refCount)
  else ((refCount - 1) mod 2 ^ 32, (refCount - 1) mod 2 ^ 32).

(** The calls of the host that touch the count. *)
Inductive call :=
| CallQueryInterface (isDriverRef hasOutInterface uuidCreated supported : bool)
| CallAddRef (isDriverRef : bool)
| CallRelease (isDriverRef : bool).

Definition count_after (c : call) (refCount : Z) : Z :=
  match c with
  | CallQueryInterface d o u s => snd (RDC_QueryInterface d o u s refCount)
  | CallAddRef d => snd (RDC_AddRef d refCount)
  | CallRelease d => snd (RDC_Release d refCount)
  end.

Definition count_after_all (cs : list call) (refCount : Z) : Z :=
  foldl (fun n c => count_after c n) refCount cs.

(** A call is turned down when it answers as it does for a failed check. *)
Definition turned_down (c : call) (refCount : Z) : Prop :=
  match c with
  | CallQueryInterface d o u s =>
      fst (RDC_QueryInterface d o u s refCount) <> kAudioHardwareNoError
  | CallAddRef d => fst (RDC_AddRef d refCount) = 0
  | CallRelease d => fst (RDC_Release d refCount) = 0
  end.

End PlugInInterface.

(** ** RDC_Control and RDC_MuteControl *)

Module MuteControl.

(** How a property operation ends: with its result or with the status of
    the [CAException] it throws. *)
Inductive result (A : Type) :=
| Done (a : A)
| Raised (status : HALStatus).
Arguments Done {A} a.
Arguments Raised {A} status.

(** CoreAudio's [kAudioObjectUnknown], and the property selectors the two
    classes handle themselves, which are four-character codes: 'bcvl',
    'cscp' and 'celm'. *)
Definition kAudioObjectUnknown : Z := 0.
Definition kAudioBooleanControlPropertyValue : Z := 0x6263766c.
Definition kAudioControlPropertyScope : Z := 0x63736370.
Definition kAudioControlPropertyElement : Z := 0x63656c6d.

(** [sizeof(UInt32)]; [AudioObjectPropertyScope] and
    [AudioObjectPropertyElement] are UInt32 too. *)
Definition sizeof_UInt32 : Z := 4.

(** What a getter writes to [outData]: a UInt32, or the bytes the base
    class writes. *)
Inductive PropertyData :=
| UInt32Data (value : Z)
| ObjectData (bytes : list byte).

(** A property-changed notification put on the dispatch queue for
    [RDC_PlugIn::Host_PropertiesChanged]: the object ID and the one address
    (selector, scope, element). *)
Record PropertiesChanged := mkChanged {
  changedObjectID : Z;
  changedSelector : Z;
  changedScope : Z;
  changedElement : Z
}.

(** The members the modelled methods use; [notified] lists, oldest first,
    the notifications dispatched. *)
Record t := mk {
  mObjectID : Z;
  mScope : Z;
  mElement : Z;
  mMuted : bool;
  notified : list PropertiesChanged
}.

(** The constructor: not muted. *)
Definition construct (inObjectID inScope inElement : Z) : t :=
  {| mObjectID := inObjectID; mScope := inScope; mElement := inElement;
     mMuted := false; notified := [] |}.

Section WithObject.

(** The property methods of the base class [RDC_Object], which is not
    among the sources. They get the object ID and the selector; the getter
    also the size of the caller's buffer; the setter the size and the
    UInt32 at [inData], and it may change the object. *)
Variable RDC_Object_HasProperty : Z -> Z -> result bool.
Variable RDC_Object_IsPropertySettable : Z -> Z -> result bool.
Variable RDC_Object_GetPropertyDataSize : Z -> Z -> result Z.
Variable RDC_Object_GetPropertyData : Z -> Z -> Z -> result (Z * PropertyData).
Variable RDC_Object_SetPropertyData : Z -> Z -> Z -> Z -> t -> result unit * t.

(** [RDC_Control::CheckObjectID]: the status it throws, if it throws. *)
Definition CheckObjectID (inObjectID : Z) (s : t) : option HALStatus :=
  if (inObjectID =? kAudioObjectUnknown) || negb (inObjectID =? mObjectID s)
  then Some kAudioHardwareBadObjectError
  else None.

(** *** RDC_Control *)

Definition Control_HasProperty (inObjectID mSelector : Z) (s : t) : result bool :=
  match CheckObjectID inObjectID s with
  | Some status => Raised status
  | None =>
      if (mSelector =? kAudioControlPropertyScope)
         || (mSelector =? kAudioControlPropertyElement)
      then Done true
      else RDC_Object_HasProperty inObjectID mSelector
  end.

Definition Control_IsPropertySettable (inObjectID mSelector : Z) (s : t) : result bool :=
  match CheckObjectID inObjectID s with
  | Some status => Raised status
  | None =>
      if (mSelector =? kAudioControlPropertyScope)
         || (mSelector =? kAudioControlPropertyElement)
      then Done false
      else RDC_Object_IsPropertySettable inObjectID mSelector
  end.

Definition Control_GetPropertyDataSize (inObjectID mSelector : Z) (s : t) : result Z :=
  match CheckObjectID inObjectID s with
  | Some status => Raised status
  | None =>
      if mSelector =? kAudioControlPropertyScope then Done sizeof_UInt32
      else if mSelector =? kAudioControlPropertyElement then Done sizeof_UInt32
      else RDC_Object_GetPropertyDataSize inObjectID mSelector
  end.

(** The result of a getter is [outDataSize] and what was written to
    [outData]. *)
Definition Control_GetPropertyData (inObjectID mSelector inDataSize : Z) (s : t)
    : result (Z * PropertyData) :=
  match CheckObjectID inObjectID s with
  | Some status => Raised status
  | None =>
      if mSelector =? kAudioControlPropertyScope then
        if inDataSize <? sizeof_UInt32 then Raised kAudioHardwareBadPropertySizeError
        else Done (sizeof_UInt32, UInt32Data (mScope s))
      else if mSelector =? kAudioControlPropertyElement then
        if inDataSize <? sizeof_UInt32 then Raised kAudioHardwareBadPropertySizeError
        else Done (sizeof_UInt32, UInt32Data (mElement s))
      else RDC_Object_GetPropertyData inObjectID mSelector inDataSize
  end.

(** *** RDC_MuteControl *)

Definition HasProperty (inObjectID mSelector : Z) (s : t) : result bool :=
  match CheckObjectID inObjectID s with
  | Some status => Raised status
  | None =>
      if mSelector =? kAudioBooleanControlPropertyValue then Done true
      else Control_HasProperty inObjectID mSelector s
  end.

Definition IsPropertySettable (inObjectID mSelector : Z) (s : t) : result bool :=
  match CheckObjectID inObjectID s with
  | Some status => Raised status
  | None =>
      if mSelector =? kAudioBooleanControlPropertyValue then Done true
      else Control_IsPropertySettable inObjectID mSelector s
  end.

Definition GetPropertyDataSize (inObjectID mSelector : Z) (s : t) : result Z :=
  match CheckObjectID inObjectID s with
  | Some status => Raised status
  | None =>
      if mSelector =? kAudioBooleanControlPropertyValue then Done sizeof_UInt32
      else Control_GetPropertyDataSize inObjectID mSelector s
  end.

Definition GetPropertyData (inObjectID mSelector inDataSize : Z) (s : t)
    : result (Z * PropertyData) :=
  match CheckObjectID inObjectID s with
  | Some status => Raised status
  | None =>
      if mSelector =? kAudioBooleanControlPropertyValue then
        if inDataSize <? sizeof_UInt32 then Raised kAudioHardwareBadPropertySizeError
        else Done (sizeof_UInt32, UInt32Data (if mMuted s then 1 else 0))
      else Control_GetPropertyData inObjectID mSelector inDataSize s
  end.

(** [inData] is the UInt32 the caller's data begins with. [RDC_Control]
    has no setter of its own, so other selectors go to the base class. *)
Definition SetPropertyData (inObjectID mSelector inDataSize inData : Z) (s : t)
    : result unit * t :=
  match CheckObjectID inObjectID s with
  | Some status => (Raised status, s)
  | None =>
      if mSelector =? kAudioBooleanControlPropertyValue then
        if inDataSize <? sizeof_UInt32
        then (Raised kAudioHardwareBadPropertySizeError, s)
        else
          let theNewMuted := negb (inData =? 0) in
          if negb (Bool.eqb (mMuted s) theNewMuted) then
            (Done tt,
             {| mObjectID := mObjectID s; mScope := mScope s;
                mElement := mElement s; mMuted := theNewMuted;
                notified :=
                  notified s
                  ++ [mkChanged inObjectID kAudioBooleanControlPropertyValue
                        (mScope s) (mElement s)] |})
          else (Done tt, s)
      else RDC_Object_SetPropertyData inObjectID mSelector inDataSize inData s
  end.

End WithObject.

(** A base class that knows no property of its own, and a mute control
    as the constructor leaves it, with the object ID the device gives its
    mute control ([kObjectID_Mute_Output_Master]) and, for the example,
    the output scope 'outp' and element 0. They exercise the properties
    below. *)
Definition no_property {A} (_ _ : Z) : result A :=
  Raised kAudioHardwareUnknownPropertyError.

Definition no_property_data (_ _ _ : Z) : result (Z * PropertyData) :=
  Raised kAudioHardwareUnknownPropertyError.

Definition no_property_to_set (_ _ _ _ : Z) (s : t) : result unit * t :=
  (Raised kAudioHardwareUnknownPropertyError, s).

Definition kObjectID_Mute_Output_Master : Z := 6.

Definition new_mute_control : t :=
  construct kObjectID_Mute_Output_Master 0x6f757470 0.

End MuteControl.

(** * Properties *)

Module ClientMapFacts.
Import ClientMap.

Ltac run_monad :=
  unfold AddClient, AddClientToShadowMaps, RemoveClient, erase_client,
    UpdateClientIOStateNonRT, SwapInShadowMaps, SwapInShadowMapsRT,
    bind, get, modify, ThrowIf, Throw, ret, count; simpl.

(** A duplicate client ID is refused by the first shadow insertion, before
    anything is written. *)
Lemma AddClient_duplicate s c x :
  mClientMapShadow s !! mClientID c = Some x ->
  AddClient c s = (Thrown RDC_InvalidClientException, s).
Proof.
  intros E. run_monad. rewrite E. reflexivity.
Qed.

(** With the ID free on both sides, both insertions go through. *)
Lemma AddClient_fresh s c :
  mClientMapShadow s !! mClientID c = None ->
  mClientMap s !! mClientID c = None ->
  AddClient c s = (Returned tt, added c s).
Proof.
  intros E1 E2. destruct s; simpl in *. run_monad.
  rewrite E1. simpl. unfold added, remember, push_bundle; simpl.
  destruct (mBundleID c); simpl; rewrite E2; reflexivity.
Qed.

Lemma RemoveClient_absent s id :
  mClientMapShadow s !! id = None ->
  RemoveClient id s = (Thrown RDC_InvalidClientException, s).
Proof.
  intros E. run_monad. rewrite E. reflexivity.
Qed.

(** The two rounds of erasures leave both sides without the client, without
    its whole process-ID entry and without its whole bundle-ID entry. *)
Lemma RemoveClient_present s id c :
  mClientMapShadow s !! id = Some c ->
  RemoveClient id s = (Returned c, removed id c s).
Proof.
  intros E. destruct s; simpl in *.
  run_monad. rewrite E. unfold removed; simpl.
  destruct (mBundleID c) as [b|]; simpl; reflexivity.
Qed.

Lemma UpdateClientIOStateNonRT_eq s id b :
  UpdateClientIOStateNonRT id b s = (Returned tt, updated id b s).
Proof. destruct s; reflexivity. Qed.

(** *** The invariant [wf] is kept by every mutator *)

Lemma at_rest_deep_equal s : at_rest s -> deep_equal s.
Proof.
  intros (E1 & E2 & E3). unfold deep_equal. rewrite E1, E2, E3. auto.
Qed.

Lemma wf_init : wf init.
Proof.
  split; [repeat split|]. split; intros k l p E; simpl in E;
    rewrite lookup_empty in E; discriminate.
Qed.

Lemma elem_of_push_back_at {K} `{Countable K} (k k' : K) p q
    (m : gmap K RDC_ClientPtrList) l :
  push_back_at k p m !! k' = Some l -> q ∈ l ->
  (k' = k /\ q = p) \/ (exists l0, m !! k' = Some l0 /\ q ∈ l0).
Proof.
  unfold push_back_at. intros E Hq.
  destruct (decide (k = k')) as [->|Hne].
  - rewrite lookup_insert_eq in E. injection E as <-.
    apply elem_of_app in Hq as [Hq|Hq].
    + right. rewrite lookup_total_alt in Hq.
      destruct (m !! k') as [l0|]; simpl in Hq.
      * eauto.
      * inversion Hq.
    + apply list_elem_of_singleton in Hq. auto.
  - rewrite lookup_insert_ne in E by assumption. eauto.
Qed.

Ltac open_wf H :=
  match type of H with
  | wf ?s =>
      destruct s; unfold wf, at_rest, indices_valid in *; simpl in *;
      let E1 := fresh "E" in let E2 := fresh "E" in let E3 := fresh "E" in
      let V1 := fresh "VP" in let V2 := fresh "VB" in
      destruct H as [(E1 & E2 & E3) (V1 & V2)]; subst
  end.

Lemma wf_added s c :
  wf s -> mClientMapShadow s !! mClientID c = None -> wf (added c s).
Proof.
  intros H F. open_wf H. split; [auto|]. split.
  - intros pid l p E Hp.
    apply (elem_of_push_back_at _ _ _ p) in E; [|assumption].
    destruct E as [[-> ->]|(l0 & E & Hp0)].
    + exists c. split; [apply lookup_insert_eq | reflexivity].
    + destruct (VP _ _ _ E Hp0) as (c0 & Ec0 & Hc0).
      exists c0. split; [|assumption].
      rewrite lookup_insert_ne; [assumption|]. congruence.
  - intros b l p E Hp.
    destruct (mBundleID c) as [bc|] eqn:Eb; simpl in E.
    + apply (elem_of_push_back_at _ _ _ p) in E; [|assumption].
      destruct E as [[-> ->]|(l0 & E & Hp0)].
      * exists c. split; [apply lookup_insert_eq | assumption].
      * destruct (VB _ _ _ E Hp0) as (c0 & Ec0 & Hc0).
        exists c0. split; [|assumption].
        rewrite lookup_insert_ne; [assumption|]. congruence.
    + destruct (VB _ _ _ E Hp) as (c0 & Ec0 & Hc0).
      exists c0. split; [|assumption].
      rewrite lookup_insert_ne; [assumption|]. congruence.
Qed.

Lemma wf_removed s id c :
  wf s -> mClientMapShadow s !! id = Some c -> wf (removed id c s).
Proof.
  intros H F. open_wf H. split; [auto|]. split.
  - intros pid l p E Hp.
    apply lookup_delete_Some in E as [Hne E].
    destruct (VP _ _ _ E Hp) as (c0 & Ec0 & Hc0).
    exists c0. split; [|assumption].
    rewrite lookup_delete_ne; [assumption|]. congruence.
  - intros b l p E Hp.
    assert (Hne : p <> id /\ mClientMapByBundleIDShadow0 !! b = Some l).
    { destruct (mBundleID c) as [bc|] eqn:Eb; simpl in E.
      - apply lookup_delete_Some in E as [Hne E]. split; [|assumption].
        destruct (VB _ _ _ E Hp) as (c0 & Ec0 & Hc0). congruence.
      - split; [|assumption].
        destruct (VB _ _ _ E Hp) as (c0 & Ec0 & Hc0). congruence. }
    destruct Hne as [Hne E'].
    destruct (VB _ _ _ E' Hp) as (c0 & Ec0 & Hc0).
    exists c0. split; [|assumption].
    rewrite lookup_delete_ne; [assumption|]. congruence.
Qed.

Lemma lookup_assign_mDoingIO id b (m : gmap Z RDC_Client) p c :
  m !! p = Some c ->
  exists c', assign_mDoingIO id b m !! p = Some c' /\
             mProcessID c' = mProcessID c /\ mBundleID c' = mBundleID c.
Proof.
  intros E. unfold assign_mDoingIO.
  destruct (decide (id = p)) as [->|Hne].
  - rewrite lookup_insert_eq. eexists. split; [reflexivity|].
    rewrite (lookup_total_correct _ _ _ E). auto.
  - rewrite lookup_insert_ne by assumption. eauto.
Qed.

Lemma wf_updated s id b : wf s -> wf (updated id b s).
Proof.
  intros H. open_wf H. split; [auto|]. split.
  - intros pid l p E Hp.
    destruct (VP _ _ _ E Hp) as (c0 & Ec0 & Hc0).
    destruct (lookup_assign_mDoingIO id b _ _ _ Ec0) as (c' & Ec' & Hp' & _).
    exists c'. split; congruence.
  - intros k l p E Hp.
    destruct (VB _ _ _ E Hp) as (c0 & Ec0 & Hc0).
    destruct (lookup_assign_mDoingIO id b _ _ _ Ec0) as (c' & Ec' & _ & Hb').
    exists c'. split; congruence.
Qed.

Lemma wf_call m s : wf s -> wf (call m s).
Proof.
  intros Hwf. pose proof Hwf as [(E1 & _) _].
  destruct m as [c|id|id|id]; unfold call, state_after, StartIONonRT, StopIONonRT.
  - destruct (mClientMapShadow s !! mClientID c) as [x|] eqn:E.
    + rewrite (AddClient_duplicate _ _ _ E). assumption.
    + rewrite AddClient_fresh by congruence. now apply wf_added.
  - destruct (mClientMapShadow s !! id) as [x|] eqn:E.
    + rewrite (RemoveClient_present _ _ _ E). now apply wf_removed.
    + rewrite (RemoveClient_absent _ _ E). assumption.
  - rewrite UpdateClientIOStateNonRT_eq. now apply wf_updated.
  - rewrite UpdateClientIOStateNonRT_eq. now apply wf_updated.
Qed.

Lemma wf_run ms : forall s, wf s -> wf (run ms s).
Proof.
  induction ms as [|m ms IH]; intros s Hwf; simpl; [assumption|].
  apply IH. now apply wf_call.
Qed.

Lemma reachable_wf s : reachable s -> wf s.
Proof. intros [ms ->]. apply wf_run, wf_init. Qed.

(** C1 (CM1). Whatever sequence of mutator calls (AddClient, RemoveClient,
    StartIONonRT, StopIONonRT) is made on a new client map, and wherever in
    that sequence one stops, once the last call has come back (normally or
    by throwing) the main maps and the shadow maps are deep-equal: same
    keys, equal clients under each key, and pointer lists that name equal
    clients in the same order. *)
Theorem CM1_main_and_shadow_deep_equal :
  forall (ms : list mutator) (k : nat), deep_equal (run (take k ms) init).
Proof.
  intros ms k. apply at_rest_deep_equal.
  destruct (wf_run (take k ms) init wf_init) as [H _]. exact H.
Qed.

(** C3. On a client map at rest, AddClient throws InvalidClient exactly
    when the client ID is already present and RemoveClient throws
    InvalidClient exactly when it is absent; whenever either of them throws,
    the whole object (main maps, shadow maps and past-client map) is as it
    was before the call. *)
Theorem ClientMap_failures_leave_maps_unchanged :
  forall (s : t) (c : RDC_Client) (id : Z),
    at_rest s ->
    (result_of (AddClient c) s = Thrown RDC_InvalidClientException
       <-> is_Some (mClientMap s !! mClientID c)) /\
    (result_of (RemoveClient id) s = Thrown RDC_InvalidClientException
       <-> mClientMap s !! id = None) /\
    (forall e, result_of (AddClient c) s = Thrown e ->
       e = RDC_InvalidClientException /\ state_after (AddClient c) s = s) /\
    (forall e, result_of (RemoveClient id) s = Thrown e ->
       e = RDC_InvalidClientException /\ state_after (RemoveClient id) s = s).
Proof.
  intros s c id (E1 & E2 & E3). unfold result_of, state_after.
  rewrite E1.
  destruct (mClientMapShadow s !! mClientID c) as [x|] eqn:EA;
    [rewrite (AddClient_duplicate _ _ _ EA)
    |rewrite AddClient_fresh by congruence];
  (destruct (mClientMapShadow s !! id) as [y|] eqn:ER;
    [rewrite (RemoveClient_present _ _ _ ER)
    |rewrite (RemoveClient_absent _ _ ER)]);
  simpl; (split; [split|split; [split|split]]);
  try discriminate; try (intros [? ?]; discriminate);
  try (intros ? ?; discriminate); try (intros; discriminate);
  try reflexivity; try (intros; eauto; fail);
  try (intros e He; injection He as <-; auto).
Qed.

Lemma ClientMap_failures_leave_maps_unchanged_witness :
  at_rest registered_7 /\
  (result_of (AddClient (mkClient 7 200 true None false)) registered_7
     = Thrown RDC_InvalidClientException
   <-> is_Some (mClientMap registered_7 !! 7)) /\
  (result_of (RemoveClient 9) registered_7 = Thrown RDC_InvalidClientException
   <-> mClientMap registered_7 !! 9 = None) /\
  (forall e,
     result_of (AddClient (mkClient 7 200 true None false)) registered_7 = Thrown e ->
     e = RDC_InvalidClientException /\
     state_after (AddClient (mkClient 7 200 true None false)) registered_7
       = registered_7) /\
  (forall e, result_of (RemoveClient 9) registered_7 = Thrown e ->
     e = RDC_InvalidClientException /\
     state_after (RemoveClient 9) registered_7 = registered_7).
Proof.
  assert (R : at_rest registered_7) by (repeat split; vm_compute; reflexivity).
  split; [exact R|].
  exact (ClientMap_failures_leave_maps_unchanged
           registered_7 (mkClient 7 200 true None false) 9 R).
Defined.

(** *** Add followed by Remove *)

(** When the new client is the only one filed under its process ID and
    under its bundle ID, adding and then removing it gives back the maps of
    both sides, and the past-client map remembers it. *)
Lemma AddClient_RemoveClient_alone s c :
  at_rest s ->
  mClientMap s !! mClientID c = None ->
  mClientMapByPID s !! mProcessID c = None ->
  (forall b, mBundleID c = Some b -> mClientMapByBundleID s !! b = None) ->
  state_after (RemoveClient (mClientID c)) (state_after (AddClient c) s)
    = with_PastClientMap (remember c) s.
Proof.
  intros (E1 & E2 & E3) F FP FB. unfold state_after.
  rewrite AddClient_fresh by congruence.
  rewrite (RemoveClient_present _ _ c) by (simpl; apply lookup_insert_eq).
  destruct s; simpl in *; subst. unfold removed, added, with_PastClientMap; simpl.
  assert (HB : erase_bundle (mBundleID c)
                 (push_bundle (mBundleID c) (mClientID c) mClientMapByBundleIDShadow0)
               = mClientMapByBundleIDShadow0).
  { destruct (mBundleID c) as [b|]; simpl; [|reflexivity].
    unfold push_back_at. rewrite delete_insert_eq. apply delete_id. auto. }
  rewrite HB. unfold push_back_at.
  rewrite !delete_insert_eq, !delete_id by assumption. reflexivity.
Qed.

(** C2 (CM2), evaluated where it fails. Client 1 is registered with process
    ID 100 and bundle ID "a". A second client with the same process ID and
    bundle ID is added and removed again. RemoveClient erases the whole
    process-ID entry and the whole bundle-ID entry, so client 1, still
    present in the client-ID map, is no longer found through either index:
    the maps are not back in the state they had before the AddClient. *)
Theorem AddClient_RemoveClient_loses_clients_sharing_pid_or_bundle :
  let c1 := mkClient 1 100 true (Some "a"%string) false in
  let c2 := mkClient 2 100 true (Some "a"%string) false in
  let before := run [CallAddClient c1] init in
  let after := run [CallAddClient c2; CallRemoveClient 2] before in
  at_rest before /\
  mClientMap before !! 2 = None /\
  mClientMapByPID before !! 100 = Some [1] /\
  mClientMapByBundleID before !! "a"%string = Some [1] /\
  GetClientsByPID 100 before = [Some c1] /\
  mClientMap after = mClientMap before /\
  mClientMapByPID after !! 100 = None /\
  mClientMapByPIDShadow after !! 100 = None /\
  mClientMapByBundleID after !! "a"%string = None /\
  mClientMapByBundleIDShadow after !! "a"%string = None /\
  GetClientsByPID 100 after = [] /\
  mPastClientMap after !! "a"%string = Some c2.
Proof.
  vm_compute. repeat split; reflexivity.
Qed.

(** *** IO state updates for an unknown client ID *)

(** C9. For a client ID that is not in the map, ClientMap::StartIONonRT and
    ClientMap::StopIONonRT do not throw: they leave, under that ID and in
    both the main and the shadow client-ID map, a value-initialised client
    record whose mDoingIO is the requested value, and the record is named
    by no entry of the process-ID and bundle-ID indices. *)
Theorem ClientMap_IO_update_creates_unindexed_record :
  forall (s : t) (id : Z),
    wf s ->
    mClientMap s !! id = None ->
    phantom_record id true
      (result_of (StartIONonRT id) s) (state_after (StartIONonRT id) s) /\
    phantom_record id false
      (result_of (StopIONonRT id) s) (state_after (StopIONonRT id) s).
Proof.
  intros s id H F.
  assert (G : forall b, phantom_record id b
                (result_of (UpdateClientIOStateNonRT id b) s)
                (state_after (UpdateClientIOStateNonRT id b) s)).
  { intros b. unfold result_of, state_after.
    rewrite UpdateClientIOStateNonRT_eq. open_wf H. unfold phantom_record; simpl.
    assert (D : assign_mDoingIO id b mClientMapShadow0 !! id
                = Some (set_mDoingIO b default_client)).
    { unfold assign_mDoingIO. rewrite lookup_insert_eq, lookup_total_alt, F.
      reflexivity. }
    assert (NP : forall pid l, mClientMapByPIDShadow0 !! pid = Some l -> id ∉ l).
    { intros pid l E Hin. destruct (VP _ _ _ E Hin) as (c & Ec & _). congruence. }
    assert (NB : forall k l, mClientMapByBundleIDShadow0 !! k = Some l -> id ∉ l).
    { intros k l E Hin. destruct (VB _ _ _ E Hin) as (c & Ec & _). congruence. }
    repeat split; assumption. }
  split; apply G.
Qed.

Lemma ClientMap_IO_update_creates_unindexed_record_witness :
  wf registered_7 /\
  mClientMap registered_7 !! 8 = None /\
  phantom_record 8 true
    (result_of (StartIONonRT 8) registered_7)
    (state_after (StartIONonRT 8) registered_7) /\
  phantom_record 8 false
    (result_of (StopIONonRT 8) registered_7)
    (state_after (StopIONonRT 8) registered_7).
Proof.
  assert (W : wf registered_7).
  { apply reachable_wf.
    exists [CallAddClient (mkClient 7 100 true (Some "a"%string) false)].
    reflexivity. }
  assert (F : mClientMap registered_7 !! 8 = None) by (vm_compute; reflexivity).
  split; [exact W|]. split; [exact F|].
  exact (ClientMap_IO_update_creates_unindexed_record registered_7 8 W F).
Defined.

End ClientMapFacts.

Module ClientMapLookupFacts.
Import ClientMap ClientMapViews.

Lemma deref_insert_fresh (m : gmap Z RDC_Client) id c l :
  (forall p, p ∈ l -> is_Some (m !! p)) -> m !! id = None ->
  deref (<[id := c]> m) l = deref m l.
Proof.
  intros V F. unfold deref. apply list_fmap_ext. intros i p Hp.
  apply lookup_insert_ne. intros ->.
  destruct (V p) as [x Hx]; [eapply list_elem_of_lookup_2; eassumption|].
  congruence.
Qed.

(** X1. On a client map in a state its mutators can leave, adding a client
    whose ID is free returns normally; afterwards GetClientNonRT and
    GetClientRT both find that client under its ID, GetClientsByPID of its
    process ID returns what it returned before followed by the new client,
    and every other lookup, by ID or by process ID, answers as before. *)
Theorem AddClient_then_lookups :
  forall (s : t) (c : RDC_Client),
    wf s ->
    mClientMap s !! mClientID c = None ->
    let s' := state_after (AddClient c) s in
    result_of (AddClient c) s = Returned tt /\
    GetClientNonRT (mClientID c) s' = Some c /\
    GetClientRT (mClientID c) s' = Some c /\
    GetClientsByPID (mProcessID c) s' = GetClientsByPID (mProcessID c) s ++ [Some c] /\
    (forall id, id <> mClientID c ->
       GetClientNonRT id s' = GetClientNonRT id s /\
       GetClientRT id s' = GetClientRT id s) /\
    (forall pid, pid <> mProcessID c ->
       GetClientsByPID pid s' = GetClientsByPID pid s).
Proof.
  intros s c H F s'. subst s'. unfold result_of, state_after.
  pose proof H as [(E1 & _) _].
  rewrite ClientMapFacts.AddClient_fresh by congruence. simpl.
  ClientMapFacts.open_wf H.
  unfold GetClientNonRT, GetClientRT, GetClient, GetClientsByPID; simpl.
  split; [reflexivity|]. split; [apply lookup_insert_eq|].
  split; [apply lookup_insert_eq|]. split; [|split].
  - unfold push_back_at. rewrite lookup_insert_eq, lookup_total_alt.
    destruct (mClientMapByPIDShadow0 !! mProcessID c) as [l|] eqn:El; simpl.
    + unfold deref at 1. rewrite fmap_app. simpl. rewrite lookup_insert_eq.
      f_equal. apply deref_insert_fresh; [|assumption].
      intros p Hp. destruct (VP _ _ _ El Hp) as (x & Hx & _). eauto.
    + rewrite lookup_insert_eq. reflexivity.
  - intros id Hne. rewrite !lookup_insert_ne by congruence. auto.
  - intros pid Hne. unfold push_back_at.
    rewrite lookup_insert_ne by congruence.
    destruct (mClientMapByPIDShadow0 !! pid) as [l|] eqn:El; [|reflexivity].
    apply deref_insert_fresh; [|assumption].
    intros p Hp. destruct (VP _ _ _ El Hp) as (x & Hx & _). eauto.
Qed.

Lemma AddClient_then_lookups_witness :
  wf registered_7 /\
  mClientMap registered_7 !! 8 = None /\
  GetClientsByPID 100
    (state_after (AddClient (mkClient 8 100 true None false)) registered_7)
  = GetClientsByPID 100 registered_7 ++ [Some (mkClient 8 100 true None false)].
Proof.
  assert (W : wf registered_7).
  { apply ClientMapFacts.reachable_wf.
    exists [CallAddClient (mkClient 7 100 true (Some "a"%string) false)].
    reflexivity. }
  assert (F : mClientMap registered_7 !! 8 = None) by (vm_compute; reflexivity).
  split; [exact W|]. split; [exact F|].
  destruct (AddClient_then_lookups registered_7
              (mkClient 8 100 true None false) W F) as (_ & _ & _ & P & _).
  exact P.
Defined.

(** X2. On a client map at rest, RemoveClient of a registered ID returns
    the record stored under it; afterwards neither GetClientNonRT nor
    GetClientRT finds that ID, GetClientsByPID of the removed client's
    process ID returns no client at all (other clients of that process
    included), lookups of other IDs answer as before and the past-client
    map is untouched. *)
Theorem RemoveClient_then_lookups :
  forall (s : t) (id : Z) (c : RDC_Client),
    at_rest s ->
    GetClientNonRT id s = Some c ->
    let s' := state_after (RemoveClient id) s in
    result_of (RemoveClient id) s = Returned c /\
    GetClientNonRT id s' = None /\
    GetClientRT id s' = None /\
    GetClientsByPID (mProcessID c) s' = [] /\
    (forall id', id' <> id ->
       GetClientNonRT id' s' = GetClientNonRT id' s /\
       GetClientRT id' s' = GetClientRT id' s) /\
    mPastClientMap s' = mPastClientMap s.
Proof.
  intros s id c (E1 & E2 & E3) E s'. subst s'. unfold result_of, state_after.
  unfold GetClientNonRT, GetClient in E.
  rewrite (ClientMapFacts.RemoveClient_present _ _ _ E). simpl.
  unfold GetClientNonRT, GetClientRT, GetClient, GetClientsByPID; simpl.
  rewrite !lookup_delete_eq.
  split; [reflexivity|]. split; [reflexivity|]. split; [reflexivity|].
  split; [reflexivity|]. split; [|reflexivity].
  intros id' Hne. rewrite !lookup_delete_ne by congruence.
  rewrite E1. auto.
Qed.

Lemma RemoveClient_then_lookups_witness :
  at_rest two_clients_of_100 /\
  GetClientNonRT 2 two_clients_of_100 = Some (mkClient 2 100 true None false) /\
  result_of (RemoveClient 2) two_clients_of_100
    = Returned (mkClient 2 100 true None false) /\
  GetClientNonRT 1 (state_after (RemoveClient 2) two_clients_of_100)
    = Some (mkClient 1 100 true (Some "a"%string) false) /\
  GetClientsByPID 100 (state_after (RemoveClient 2) two_clients_of_100) = [].
Proof.
  assert (R : at_rest two_clients_of_100)
    by (repeat split; vm_compute; reflexivity).
  assert (E : GetClientNonRT 2 two_clients_of_100
              = Some (mkClient 2 100 true None false))
    by (vm_compute; reflexivity).
  split; [exact R|]. split; [exact E|].
  destruct (RemoveClient_then_lookups two_clients_of_100 2 _ R E)
    as (H1 & _ & _ & H4 & H5 & _).
  split; [exact H1|]. split; [|exact H4].
  destruct (H5 1) as [H _]; [discriminate|].
  rewrite H. vm_compute. reflexivity.
Defined.

(** X3. After any sequence of mutator calls on a new client map,
    GetClientsByPID dereferences no dangling pointer: every pointer filed
    under a process ID names a client that is in the client-ID map and that
    has this process ID. GetClientRT and GetClientNonRT give the same
    answer for every ID. *)
Theorem GetClientsByPID_never_dangles :
  forall (ms : list mutator) (pid : Z),
    let s := run ms init in
    Forall (fun r => exists c, r = Some c /\ mProcessID c = pid)
      (GetClientsByPID pid s) /\
    (forall id, GetClientRT id s = GetClientNonRT id s).
Proof.
  intros ms pid s.
  assert (H : wf s) by (apply ClientMapFacts.wf_run, ClientMapFacts.wf_init).
  destruct H as [(E1 & _) (VP & _)]. split.
  - unfold GetClientsByPID.
    destruct (mClientMapByPIDShadow s !! pid) as [l|] eqn:El; [|constructor].
    unfold deref. apply Forall_fmap, Forall_forall. intros p Hp. simpl.
    destruct (VP _ _ _ El Hp) as (c & Hc & Hpid). eauto.
  - intros id. unfold GetClientRT, GetClientNonRT. now rewrite E1.
Qed.

(** *** The past-client map *)

Lemma past_clients_cover_init : past_clients_cover init.
Proof.
  split.
  - intros b c E. simpl in E. rewrite lookup_empty in E. discriminate.
  - intros id c b E. simpl in E. rewrite lookup_empty in E. discriminate.
Qed.

Lemma past_clients_cover_call m s :
  wf s -> past_clients_cover s -> past_clients_cover (call m s).
Proof.
  intros Hwf [P1 P2]. pose proof Hwf as [(E1 & _) _].
  destruct m as [c|id|id|id]; unfold call, state_after, StartIONonRT, StopIONonRT.
  - destruct (mClientMapShadow s !! mClientID c) as [x|] eqn:E.
    + rewrite (ClientMapFacts.AddClient_duplicate _ _ _ E). now split.
    + rewrite ClientMapFacts.AddClient_fresh by congruence. simpl.
      unfold past_clients_cover; simpl; unfold remember. split.
      * intros b c0 Hb. destruct (mBundleID c) as [bc|] eqn:Eb; simpl in Hb; [|eauto].
        destruct (decide (bc = b)) as [->|Hne].
        -- rewrite lookup_insert_eq in Hb. congruence.
        -- rewrite lookup_insert_ne in Hb by assumption. eauto.
      * intros id c0 b Hc Hb.
        destruct (decide (mClientID c = id)) as [<-|Hne].
        -- rewrite lookup_insert_eq in Hc. injection Hc as <-.
           rewrite Hb. rewrite lookup_insert_eq. eauto.
        -- rewrite lookup_insert_ne in Hc by assumption.
           rewrite <- E1 in P2.
           destruct (mBundleID c) as [bc|]; [|eauto].
           destruct (decide (bc = b)) as [->|Hnb].
           ++ rewrite lookup_insert_eq. eauto.
           ++ rewrite lookup_insert_ne by assumption. eauto.
  - destruct (mClientMapShadow s !! id) as [x|] eqn:E.
    + rewrite (ClientMapFacts.RemoveClient_present _ _ _ E). simpl.
      split; [exact P1|]. simpl. intros id' c b Hc Hb.
      apply lookup_delete_Some in Hc as [_ Hc]. rewrite E1 in Hc. eauto.
    + rewrite (ClientMapFacts.RemoveClient_absent _ _ E). now split.
  - rewrite ClientMapFacts.UpdateClientIOStateNonRT_eq. simpl.
    split; [exact P1|]. simpl. intros id' c b Hc Hb.
    unfold assign_mDoingIO in Hc. rewrite E1 in Hc.
    destruct (decide (id = id')) as [->|Hne].
    + rewrite lookup_insert_eq in Hc. injection Hc as <-. simpl in Hb.
      rewrite lookup_total_alt in Hb.
      destruct (mClientMapShadow s !! id') as [x|] eqn:Ex; simpl in Hb; [eauto|].
      discriminate.
    + rewrite lookup_insert_ne in Hc by assumption. eauto.
  - rewrite ClientMapFacts.UpdateClientIOStateNonRT_eq. simpl.
    split; [exact P1|]. simpl. intros id' c b Hc Hb.
    unfold assign_mDoingIO in Hc. rewrite E1 in Hc.
    destruct (decide (id = id')) as [->|Hne].
    + rewrite lookup_insert_eq in Hc. injection Hc as <-. simpl in Hb.
      rewrite lookup_total_alt in Hb.
      destruct (mClientMapShadow s !! id') as [x|] eqn:Ex; simpl in Hb; [eauto|].
      discriminate.
    + rewrite lookup_insert_ne in Hc by assumption. eauto.
Qed.

Lemma past_clients_cover_run ms :
  forall s, wf s -> past_clients_cover s -> past_clients_cover (run ms s).
Proof.
  induction ms as [|m ms IH]; intros s Hwf Hp; simpl; [assumption|].
  apply IH; [now apply ClientMapFacts.wf_call | now apply past_clients_cover_call].
Qed.

Lemma past_clients_kept m s b :
  wf s -> is_Some (mPastClientMap s !! b) ->
  is_Some (mPastClientMap (call m s) !! b).
Proof.
  intros Hwf Hb. pose proof Hwf as [(E1 & _) _].
  destruct m as [c|id|id|id]; unfold call, state_after, StartIONonRT, StopIONonRT.
  - destruct (mClientMapShadow s !! mClientID c) as [x|] eqn:E.
    + now rewrite (ClientMapFacts.AddClient_duplicate _ _ _ E).
    + rewrite ClientMapFacts.AddClient_fresh by congruence. simpl.
      unfold remember. destruct (mBundleID c) as [bc|]; [|assumption].
      destruct (decide (bc = b)) as [->|Hne].
      * rewrite lookup_insert_eq. eauto.
      * now rewrite lookup_insert_ne.
  - destruct (mClientMapShadow s !! id) as [x|] eqn:E.
    + now rewrite (ClientMapFacts.RemoveClient_present _ _ _ E).
    + now rewrite (ClientMapFacts.RemoveClient_absent _ _ E).
  - now rewrite ClientMapFacts.UpdateClientIOStateNonRT_eq.
  - now rewrite ClientMapFacts.UpdateClientIOStateNonRT_eq.
Qed.

(** X4. After any sequence of mutator calls on a new client map, every
    past-client entry is filed under the bundle ID of the client it holds,
    every registered client that has a bundle ID has a past-client entry
    under it, and no mutator call makes a bundle ID disappear from the
    past-client map. *)
Theorem PastClientMap_remembers_bundle_IDs :
  forall (ms : list mutator) (m : mutator),
    let s := run ms init in
    past_clients_cover s /\
    (forall b, is_Some (mPastClientMap s !! b) ->
               is_Some (mPastClientMap (call m s) !! b)).
Proof.
  intros ms m s.
  assert (H : wf s) by (apply ClientMapFacts.wf_run, ClientMapFacts.wf_init).
  split.
  - apply past_clients_cover_run; [apply ClientMapFacts.wf_init|].
    apply past_clients_cover_init.
  - intros b. now apply past_clients_kept.
Qed.

End ClientMapLookupFacts.

Module ClientsFacts.
Import Clients.

Ltac run_clients :=
  unfold StartIONonRT, StopIONonRT, SendIORunningNotifications, onClientMap,
    ClientMap.StartIONonRT, ClientMap.StopIONonRT,
    bind, get, modify, ThrowIf, Throw, ret; simpl.

Lemma StartIONonRT_unknown s id :
  ClientMap.GetClientNonRT id (mClientMap s) = None ->
  StartIONonRT id s = (Thrown RDC_InvalidClientException, s).
Proof. intros E. run_clients. now rewrite E. Qed.

Lemma StopIONonRT_unknown s id :
  ClientMap.GetClientNonRT id (mClientMap s) = None ->
  StopIONonRT id s = (Thrown RDC_InvalidClientException, s).
Proof. intros E. run_clients. now rewrite E. Qed.

Lemma StartIONonRT_already_doing_IO s id c :
  ClientMap.GetClientNonRT id (mClientMap s) = Some c -> mDoingIO c = true ->
  StartIONonRT id s = (Returned false, s).
Proof. intros E D. run_clients. now rewrite E, D. Qed.

Lemma StopIONonRT_not_doing_IO s id c :
  ClientMap.GetClientNonRT id (mClientMap s) = Some c -> mDoingIO c = false ->
  StopIONonRT id s = (Returned false, s).
Proof. intros E D. run_clients. now rewrite E, D. Qed.

Lemma StartIONonRT_maxed_out s id c :
  ClientMap.GetClientNonRT id (mClientMap s) = Some c -> mDoingIO c = false ->
  mStartCount s = UINT64_MAX ->
  StartIONonRT id s = (Thrown (CAException kAudioHardwareIllegalOperationError), s).
Proof.
  intros E D C. run_clients. rewrite E, D, C. reflexivity.
Qed.

Lemma StartIONonRT_starts s id c :
  ClientMap.GetClientNonRT id (mClientMap s) = Some c -> mDoingIO c = false ->
  0 <= mStartCount s < UINT64_MAX ->
  StartIONonRT id s = (Returned (mStartCount s =? 0), started id s).
Proof.
  intros E D C. unfold UINT64_MAX in C. run_clients. rewrite E, D. simpl.
  replace (mStartCount s =? UINT64_MAX) with false
    by (symmetry; apply Z.eqb_neq; unfold UINT64_MAX; lia).
  unfold with_StartCount; simpl.
  rewrite !(Z.mod_small (mStartCount s + 1)) by lia.
  replace (mStartCount s + 1 =? 1) with (mStartCount s =? 0)
    by (destruct (Z.eqb_spec (mStartCount s) 0), (Z.eqb_spec (mStartCount s + 1) 1);
        lia || reflexivity).
  unfold started. destruct (mStartCount s =? 0); reflexivity.
Qed.

Lemma StopIONonRT_stops s id c :
  ClientMap.GetClientNonRT id (mClientMap s) = Some c -> mDoingIO c = true ->
  0 < mStartCount s <= UINT64_MAX ->
  StopIONonRT id s = (Returned (mStartCount s =? 1), stopped id s).
Proof.
  intros E D C. unfold UINT64_MAX in C. run_clients. rewrite E, D. simpl.
  replace (mStartCount s <=? 0) with false by (symmetry; apply Z.leb_gt; lia).
  unfold with_StartCount; simpl.
  rewrite !(Z.mod_small (mStartCount s - 1)) by lia.
  replace (mStartCount s - 1 =? 0) with (mStartCount s =? 1)
    by (destruct (Z.eqb_spec (mStartCount s) 1), (Z.eqb_spec (mStartCount s - 1) 0);
        lia || reflexivity).
  unfold stopped. destruct (mStartCount s =? 1); reflexivity.
Qed.

(** With the count at 0 the flag is cleared, on both sides, before the
    guard throws. *)
Lemma StopIONonRT_underflow s id c :
  ClientMap.GetClientNonRT id (mClientMap s) = Some c -> mDoingIO c = true ->
  mStartCount s = 0 ->
  StopIONonRT id s
  = (Thrown (CAException kAudioHardwareIllegalOperationError),
     {| mOwnerDeviceID := mOwnerDeviceID s;
        mClientMap := ClientMap.updated id false (mClientMap s);
        mStartCount := 0;
        dispatched := dispatched s |}).
Proof.
  intros E D C. run_clients. rewrite E, D. simpl.
  rewrite C. simpl. destruct (mClientMap s); reflexivity.
Qed.

Lemma AddClient_eq s c :
  Clients.AddClient c s
  = (fst (ClientMap.AddClient c (mClientMap s)),
     {| mOwnerDeviceID := mOwnerDeviceID s;
        mClientMap := snd (ClientMap.AddClient c (mClientMap s));
        mStartCount := mStartCount s; dispatched := dispatched s |}).
Proof.
  unfold Clients.AddClient, onClientMap.
  destruct (ClientMap.AddClient c (mClientMap s)); reflexivity.
Qed.

Lemma RemoveClient_eq s id :
  Clients.RemoveClient id s
  = (match fst (ClientMap.RemoveClient id (mClientMap s)) with
     | Returned _ => Returned tt
     | Thrown e => Thrown e
     end,
     {| mOwnerDeviceID := mOwnerDeviceID s;
        mClientMap := snd (ClientMap.RemoveClient id (mClientMap s));
        mStartCount := mStartCount s; dispatched := dispatched s |}).
Proof.
  unfold Clients.RemoveClient, onClientMap, bind, ret.
  destruct (ClientMap.RemoveClient id (mClientMap s)) as [[r|e] cm]; reflexivity.
Qed.

(** *** Counts the calls of the device can reach *)

(** Registering a client, starting it and removing it while it is doing IO
    gives back the client map and leaves the count one higher. *)
Lemma start_and_abandon_counts n ds :
  0 <= n < UINT64_MAX ->
  exists ds',
    foldl (fun s c => DeviceClients.perform c s)
      {| mOwnerDeviceID := 2; mClientMap := ClientMap.init;
         mStartCount := n; dispatched := ds |}
      DeviceClients.start_and_abandon
    = {| mOwnerDeviceID := 2; mClientMap := ClientMap.init;
         mStartCount := n + 1; dispatched := ds' |}.
Proof.
  intros C. unfold DeviceClients.start_and_abandon. cbn [foldl].
  unfold DeviceClients.perform, DeviceClients.AddClient, DeviceClients.RemoveClient.
  set (c := DeviceClients.RDC_Client_from DeviceClients.client_without_bundle).
  unfold state_after at 3. rewrite AddClient_eq.
  rewrite ClientMapFacts.AddClient_fresh by reflexivity. cbn [fst snd].
  cbn [mOwnerDeviceID mClientMap mStartCount dispatched].
  unfold state_after at 2.
  rewrite (StartIONonRT_starts _ 1 c) by (assumption || reflexivity).
  cbn [fst snd]. unfold started.
  cbn [mOwnerDeviceID mClientMap mStartCount dispatched].
  unfold state_after. rewrite RemoveClient_eq.
  cbn [mOwnerDeviceID mClientMap mStartCount dispatched].
  change (AudioServerPlugInClientInfo.mClientID DeviceClients.client_without_bundle)
    with 1.
  rewrite (ClientMapFacts.RemoveClient_present _ 1 (set_mDoingIO true c))
    by (vm_compute; reflexivity).
  cbn [fst snd].
  replace (ClientMap.removed 1 (set_mDoingIO true c)
             (ClientMap.updated 1 true (ClientMap.added c ClientMap.init)))
    with ClientMap.init by (vm_compute; reflexivity).
  eexists. reflexivity.
Qed.

(** Every count up to UINT64_MAX is reached, with no client left in the
    map, by calls the device makes. *)
Lemma count_reachable n :
  0 <= n -> n <= UINT64_MAX ->
  exists cs ds,
    DeviceClients.history 2 cs
    = {| mOwnerDeviceID := 2; mClientMap := ClientMap.init;
         mStartCount := n; dispatched := ds |}.
Proof.
  intros H. pattern n. apply natlike_ind; [| |exact H].
  - intros _. exists [], []. reflexivity.
  - intros x Hx IH Hs. destruct IH as (cs & ds & E); [lia|].
    destruct (start_and_abandon_counts x ds) as (ds' & E'); [lia|].
    exists (cs ++ DeviceClients.start_and_abandon), ds'.
    unfold DeviceClients.history in *. rewrite foldl_app, E.
    rewrite E'. reflexivity.
Qed.

Lemma updated_lookup (cm : ClientMap.t) id b c :
  ClientMap.at_rest cm ->
  ClientMap.GetClientNonRT id cm = Some c ->
  ClientMap.GetClientNonRT id (ClientMap.updated id b cm) = Some (set_mDoingIO b c) /\
  ClientMap.GetClientRT id (ClientMap.updated id b cm) = Some (set_mDoingIO b c).
Proof.
  intros (E1 & _) E.
  unfold ClientMap.GetClientNonRT, ClientMap.GetClientRT, ClientMap.GetClient,
    ClientMap.updated, ClientMap.assign_mDoingIO in *; simpl.
  rewrite E1, !lookup_insert_eq, (lookup_total_correct _ _ _ E). auto.
Qed.

(** C4, where the unguarded reading fails. The calls of the device can
    take the count to UINT64_MAX with one registered client that is not
    doing IO (each client removed while doing IO leaves the count one
    higher). The start of that client is then refused: IllegalOperation is
    thrown, the client is still not doing IO and the count has not moved. *)
Lemma StartIONonRT_at_full_count_does_not_count :
  exists cs : list DeviceClients.call,
    let s := DeviceClients.history 2 cs in
    mClientMap s = mClientMap one_idle_client_count_maxed /\
    mStartCount s = UINT64_MAX /\
    ClientMap.GetClientNonRT 1 (mClientMap s)
      = Some (mkClient 1 100 true None false) /\
    StartIONonRT 1 s
      = (Thrown (CAException kAudioHardwareIllegalOperationError), s) /\
    ~ start_always_counts s 1.
Proof.
  destruct (count_reachable UINT64_MAX) as (cs & ds & E);
    [vm_compute; discriminate | lia |].
  exists (cs ++ [DeviceClients.CallAddClient DeviceClients.client_without_bundle]).
  unfold DeviceClients.history in *. rewrite foldl_app, E. cbn [foldl].
  unfold DeviceClients.perform, DeviceClients.AddClient, state_after.
  rewrite AddClient_eq. rewrite ClientMapFacts.AddClient_fresh by reflexivity.
  cbn [fst snd]. cbn [mOwnerDeviceID mClientMap mStartCount dispatched].
  set (s := {| mOwnerDeviceID := 2; mClientMap := _; mStartCount := UINT64_MAX;
               dispatched := ds |}).
  assert (G : ClientMap.GetClientNonRT 1 (mClientMap s)
              = Some (mkClient 1 100 true None false)) by reflexivity.
  assert (R : StartIONonRT 1 s
              = (Thrown (CAException kAudioHardwareIllegalOperationError), s))
    by (apply (StartIONonRT_maxed_out s 1 _ G); reflexivity).
  split; [reflexivity|]. split; [reflexivity|]. split; [exact G|].
  split; [exact R|].
  intros H. destruct (H _ G eq_refl) as [_ C].
  unfold state_after in C. rewrite R in C. simpl in C. lia.
Qed.

(** C4, as the code has it. On a registry whose map is at rest:
    StartIONonRT and StopIONonRT throw InvalidClient for an unknown client;
    StartIONonRT of a client that is not doing IO, the count being below
    UINT64_MAX, marks it as doing IO (main and shadow map), adds one to the
    count and returns true exactly when the count went from 0 to 1;
    StartIONonRT of a client already doing IO returns false and changes
    nothing; StopIONonRT of a client doing IO, the count being above 0,
    marks it as not doing IO, takes one from the count and returns true
    exactly when the count reached 0; StopIONonRT of a client not doing IO
    returns false and changes nothing. At the limits: StartIONonRT of a
    client that is not doing IO, the count being UINT64_MAX, throws
    IllegalOperation and changes nothing; StopIONonRT of a client doing IO,
    the count being 0, marks it as not doing IO (main and shadow map) and
    then throws IllegalOperation, the count staying 0 and no notification
    being sent. *)
Theorem Clients_IO_reference_count :
  forall (s : t) (id : Z),
    ClientMap.at_rest (mClientMap s) ->
    0 <= mStartCount s <= UINT64_MAX ->
    (ClientMap.GetClientNonRT id (mClientMap s) = None ->
       result_of (StartIONonRT id) s = Thrown RDC_InvalidClientException /\
       result_of (StopIONonRT id) s = Thrown RDC_InvalidClientException) /\
    (forall c,
       ClientMap.GetClientNonRT id (mClientMap s) = Some c ->
       (mDoingIO c = false -> mStartCount s < UINT64_MAX ->
          let s' := state_after (StartIONonRT id) s in
          ClientMap.GetClientNonRT id (mClientMap s') = Some (set_mDoingIO true c) /\
          ClientMap.GetClientRT id (mClientMap s') = Some (set_mDoingIO true c) /\
          mStartCount s' = mStartCount s + 1 /\
          exists b, result_of (StartIONonRT id) s = Returned b /\
                    (b = true <-> mStartCount s = 0 /\ mStartCount s' = 1)) /\
       (mDoingIO c = true -> StartIONonRT id s = (Returned false, s)) /\
       (mDoingIO c = true -> 0 < mStartCount s ->
          let s' := state_after (StopIONonRT id) s in
          ClientMap.GetClientNonRT id (mClientMap s') = Some (set_mDoingIO false c) /\
          ClientMap.GetClientRT id (mClientMap s') = Some (set_mDoingIO false c) /\
          mStartCount s' = mStartCount s - 1 /\
          exists b, result_of (StopIONonRT id) s = Returned b /\
                    (b = true <-> mStartCount s' = 0)) /\
       (mDoingIO c = false -> StopIONonRT id s = (Returned false, s)) /\
       (mDoingIO c = false -> mStartCount s = UINT64_MAX ->
          StartIONonRT id s
          = (Thrown (CAException kAudioHardwareIllegalOperationError), s)) /\
       (mDoingIO c = true -> mStartCount s = 0 ->
          let s' := state_after (StopIONonRT id) s in
          result_of (StopIONonRT id) s
            = Thrown (CAException kAudioHardwareIllegalOperationError) /\
          ClientMap.GetClientNonRT id (mClientMap s') = Some (set_mDoingIO false c) /\
          ClientMap.GetClientRT id (mClientMap s') = Some (set_mDoingIO false c) /\
          mStartCount s' = 0 /\
          dispatched s' = dispatched s)).
Proof.
  intros s id R C. split.
  - intros E. unfold result_of.
    now rewrite (StartIONonRT_unknown _ _ E), (StopIONonRT_unknown _ _ E).
  - intros c E. split; [|split; [|split; [|split; [|split]]]].
    + intros D L s'. subst s'. unfold result_of, state_after.
      rewrite (StartIONonRT_starts _ _ _ E D) by lia. simpl.
      destruct (updated_lookup _ id true c R E) as [U1 U2].
      split; [exact U1|]. split; [exact U2|]. split; [reflexivity|].
      exists (mStartCount s =? 0). split; [reflexivity|].
      destruct (Z.eqb_spec (mStartCount s) 0) as [Z0|Z0].
      * split; [intros _; lia | reflexivity].
      * split; [discriminate | intros [Z1 _]; contradiction].
    + intros D. now apply (StartIONonRT_already_doing_IO _ _ c).
    + intros D L s'. subst s'. unfold result_of, state_after.
      rewrite (StopIONonRT_stops _ _ _ E D) by lia. simpl.
      destruct (updated_lookup _ id false c R E) as [U1 U2].
      split; [exact U1|]. split; [exact U2|]. split; [reflexivity|].
      exists (mStartCount s =? 1). split; [reflexivity|].
      destruct (Z.eqb_spec (mStartCount s) 1) as [Z1|Z1].
      * split; [intros _; lia | reflexivity].
      * split; [discriminate | intros Z0; lia].
    + intros D. now apply (StopIONonRT_not_doing_IO _ _ c).
    + intros D F. now apply (StartIONonRT_maxed_out _ _ c).
    + intros D F s'. subst s'. unfold result_of, state_after.
      rewrite (StopIONonRT_underflow _ _ _ E D F). simpl.
      destruct (updated_lookup _ id false c R E) as [U1 U2].
      split; [reflexivity|]. split; [exact U1|]. split; [exact U2|].
      split; reflexivity.
Qed.

Lemma Clients_IO_reference_count_witness :
  ClientMap.at_rest (mClientMap two_clients_one_busy) /\
  0 <= mStartCount two_clients_one_busy <= UINT64_MAX /\
  ClientMap.GetClientNonRT 2 (mClientMap two_clients_one_busy)
    = Some (mkClient 2 200 true None false) /\
  mStartCount two_clients_one_busy < UINT64_MAX /\
  (let s' := state_after (StartIONonRT 2) two_clients_one_busy in
   ClientMap.GetClientNonRT 2 (mClientMap s')
     = Some (set_mDoingIO true (mkClient 2 200 true None false)) /\
   ClientMap.GetClientRT 2 (mClientMap s')
     = Some (set_mDoingIO true (mkClient 2 200 true None false)) /\
   mStartCount s' = mStartCount two_clients_one_busy + 1 /\
   exists b, result_of (StartIONonRT 2) two_clients_one_busy = Returned b /\
             (b = true <-> mStartCount two_clients_one_busy = 0 /\ mStartCount s' = 1)).
Proof.
  assert (R : ClientMap.at_rest (mClientMap two_clients_one_busy))
    by (repeat split; vm_compute; reflexivity).
  assert (C : 0 <= mStartCount two_clients_one_busy <= UINT64_MAX)
    by (vm_compute; split; discriminate).
  assert (E : ClientMap.GetClientNonRT 2 (mClientMap two_clients_one_busy)
              = Some (mkClient 2 200 true None false))
    by (vm_compute; reflexivity).
  assert (L : mStartCount two_clients_one_busy < UINT64_MAX)
    by (vm_compute; reflexivity).
  split; [exact R|]. split; [exact C|]. split; [exact E|]. split; [exact L|].
  destruct (Clients_IO_reference_count two_clients_one_busy 2 R C) as [_ H].
  destruct (H _ E) as [H1 _].
  exact (H1 eq_refl L).
Defined.

(** C10. StartIONonRT does not overflow the count: when the count is
    UINT64_MAX and a registered client that is not doing IO starts, the
    call throws IllegalOperation and the whole object, count and client
    flag included, is as before; and no call of StartIONonRT ever leaves a
    count smaller than the one it found, so the count does not wrap to 0. *)
Theorem StartIONonRT_count_never_wraps :
  forall (s : t) (id : Z),
    0 <= mStartCount s <= UINT64_MAX ->
    (forall c,
       ClientMap.GetClientNonRT id (mClientMap s) = Some c ->
       mDoingIO c = false ->
       mStartCount s = UINT64_MAX ->
       StartIONonRT id s
         = (Thrown (CAException kAudioHardwareIllegalOperationError), s)) /\
    mStartCount s <= mStartCount (state_after (StartIONonRT id) s) <= UINT64_MAX.
Proof.
  intros s id C. split.
  - intros c E D F. now apply (StartIONonRT_maxed_out _ _ c).
  - unfold state_after.
    destruct (ClientMap.GetClientNonRT id (mClientMap s)) as [c|] eqn:E.
    + destruct (mDoingIO c) eqn:D.
      * rewrite (StartIONonRT_already_doing_IO _ _ _ E D). simpl. lia.
      * destruct (Z.eq_dec (mStartCount s) UINT64_MAX) as [F|F].
        -- rewrite (StartIONonRT_maxed_out _ _ _ E D F). simpl. lia.
        -- rewrite (StartIONonRT_starts _ _ _ E D) by lia. simpl. lia.
    + rewrite (StartIONonRT_unknown _ _ E). simpl. lia.
Qed.

Lemma StartIONonRT_count_never_wraps_witness :
  0 <= mStartCount one_idle_client_count_maxed <= UINT64_MAX /\
  (forall c,
     ClientMap.GetClientNonRT 1 (mClientMap one_idle_client_count_maxed) = Some c ->
     mDoingIO c = false ->
     mStartCount one_idle_client_count_maxed = UINT64_MAX ->
     StartIONonRT 1 one_idle_client_count_maxed
       = (Thrown (CAException kAudioHardwareIllegalOperationError),
          one_idle_client_count_maxed)) /\
  mStartCount one_idle_client_count_maxed
    <= mStartCount (state_after (StartIONonRT 1) one_idle_client_count_maxed)
    <= UINT64_MAX.
Proof.
  assert (C : 0 <= mStartCount one_idle_client_count_maxed <= UINT64_MAX)
    by (vm_compute; split; discriminate).
  split; [exact C|].
  exact (StartIONonRT_count_never_wraps one_idle_client_count_maxed 1 C).
Defined.

End ClientsFacts.

Module DeviceClientsFacts.
Import Clients DeviceClients.

Local Abbreviation doing := (fun kc : Z * RDC_Client => mDoingIO kc.2 = true).

Lemma size_doing_insert_idle (m : gmap Z RDC_Client) id c :
  mDoingIO c = false ->
  (size (filter doing (<[id := c]> m)) <= size (filter doing m))%nat.
Proof.
  intros D. rewrite map_filter_insert_False by (simpl; congruence).
  rewrite map_filter_delete, map_size_delete.
  destruct (filter doing m !! id); simpl; lia.
Qed.

Lemma size_doing_insert_busy (m : gmap Z RDC_Client) id c c' :
  m !! id = Some c -> mDoingIO c = false -> mDoingIO c' = true ->
  size (filter doing (<[id := c']> m)) = S (size (filter doing m)).
Proof.
  intros E D D'. rewrite map_filter_insert_True by assumption.
  apply map_size_insert_None. apply map_lookup_filter_None_2. right.
  intros x Hx. simpl. congruence.
Qed.

Lemma size_doing_insert_stop (m : gmap Z RDC_Client) id c c' :
  m !! id = Some c -> mDoingIO c = true -> mDoingIO c' = false ->
  S (size (filter doing (<[id := c']> m))) = size (filter doing m).
Proof.
  intros E D D'. rewrite map_filter_insert_False by (simpl; congruence).
  rewrite map_filter_delete.
  assert (F : filter doing m !! id = Some c)
    by (apply map_lookup_filter_Some; auto).
  rewrite map_size_delete, F. simpl.
  assert (size (filter doing m) <> 0%nat); [|lia].
  intros Z0. apply map_size_empty_inv in Z0. rewrite Z0 in F.
  rewrite lookup_empty in F. discriminate.
Qed.

Lemma size_doing_delete (m : gmap Z RDC_Client) id :
  (size (filter doing (delete id m)) <= size (filter doing m))%nat.
Proof.
  rewrite map_filter_delete, map_size_delete.
  destruct (filter doing m !! id); simpl; lia.
Qed.

(** A client recorded as doing IO is counted. *)
Lemma busy_client_counted s id c :
  ClientMap.GetClientNonRT id (mClientMap s) = Some c -> mDoingIO c = true ->
  1 <= clients_doing_IO s.
Proof.
  intros E D. unfold clients_doing_IO.
  assert (F : filter doing (ClientMap.mClientMapShadow (mClientMap s)) !! id = Some c)
    by (apply map_lookup_filter_Some; auto).
  assert (size (filter doing (ClientMap.mClientMapShadow (mClientMap s))) <> 0%nat);
    [|lia].
  intros Z0. apply map_size_empty_inv in Z0. rewrite Z0 in F.
  rewrite lookup_empty in F. discriminate.
Qed.

Lemma consistent_init dev : consistent (init dev).
Proof.
  split; [apply ClientMapFacts.wf_init|]. split.
  - intros id c E. unfold ClientMap.GetClientNonRT, ClientMap.GetClient in E.
    simpl in E. rewrite lookup_empty in E. discriminate.
  - unfold clients_doing_IO. simpl. rewrite map_filter_empty, map_size_empty.
    unfold UINT64_MAX. simpl. lia.
Qed.

Lemma consistent_Clients_AddClient s c :
  mDoingIO c = false ->
  consistent s -> consistent (state_after (Clients.AddClient c) s).
Proof.
  intros D (W & K & C). pose proof W as [(E1 & _) _].
  unfold state_after. rewrite ClientsFacts.AddClient_eq. simpl.
  destruct (ClientMap.mClientMapShadow (mClientMap s) !! mClientID c) as [x|] eqn:E.
  - rewrite (ClientMapFacts.AddClient_duplicate _ _ _ E). simpl.
    destruct s; exact (conj W (conj K C)).
  - rewrite ClientMapFacts.AddClient_fresh by congruence. simpl.
    split; [now apply ClientMapFacts.wf_added|]. split.
    + intros id c0 Hc. unfold ClientMap.GetClientNonRT, ClientMap.GetClient in Hc.
      simpl in Hc. destruct (decide (mClientID c = id)) as [<-|Hne].
      * rewrite lookup_insert_eq in Hc. congruence.
      * rewrite lookup_insert_ne in Hc by assumption. apply K.
        unfold ClientMap.GetClientNonRT, ClientMap.GetClient. congruence.
    + unfold clients_doing_IO in *. simpl. rewrite E1.
      pose proof (size_doing_insert_idle
                    (ClientMap.mClientMapShadow (mClientMap s)) (mClientID c) c D).
      lia.
Qed.

Lemma consistent_AddClient s i :
  consistent s -> consistent (state_after (AddClient i) s).
Proof. apply consistent_Clients_AddClient. reflexivity. Qed.

Lemma consistent_RemoveClient s i :
  consistent s -> consistent (state_after (RemoveClient i) s).
Proof.
  intros (W & K & C). pose proof W as [(E1 & _) _].
  unfold state_after, RemoveClient. rewrite ClientsFacts.RemoveClient_eq. simpl.
  set (id := AudioServerPlugInClientInfo.mClientID i).
  destruct (ClientMap.mClientMapShadow (mClientMap s) !! id) as [x|] eqn:E.
  - rewrite (ClientMapFacts.RemoveClient_present _ _ _ E). simpl.
    split; [now apply ClientMapFacts.wf_removed|]. split.
    + intros id' c0 Hc. unfold ClientMap.GetClientNonRT, ClientMap.GetClient in Hc.
      simpl in Hc. apply lookup_delete_Some in Hc as [_ Hc]. apply K.
      unfold ClientMap.GetClientNonRT, ClientMap.GetClient. congruence.
    + unfold clients_doing_IO in *. simpl. rewrite E1.
      pose proof (size_doing_delete
                    (ClientMap.mClientMapShadow (mClientMap s)) id). lia.
  - rewrite (ClientMapFacts.RemoveClient_absent _ _ E). simpl.
    destruct s; exact (conj W (conj K C)).
Qed.

Lemma filed_under_own_ID_updated s cm' id b c :
  ClientMap.at_rest (mClientMap s) ->
  filed_under_own_ID s ->
  ClientMap.GetClientNonRT id (mClientMap s) = Some c ->
  ClientMap.mClientMapShadow cm'
    = ClientMap.assign_mDoingIO id b (ClientMap.mClientMap (mClientMap s)) ->
  forall id' c', ClientMap.GetClientNonRT id' cm' = Some c' -> mClientID c' = id'.
Proof.
  intros (E1 & _) K E S id' c' Hc.
  unfold ClientMap.GetClientNonRT, ClientMap.GetClient in *.
  rewrite S in Hc. unfold ClientMap.assign_mDoingIO in Hc. rewrite E1 in Hc.
  destruct (decide (id = id')) as [->|Hne].
  - rewrite lookup_insert_eq in Hc. injection Hc as <-.
    rewrite (lookup_total_correct _ _ _ E). simpl. now apply K.
  - rewrite lookup_insert_ne in Hc by assumption. now apply K.
Qed.

Lemma consistent_StartIONonRT s id :
  consistent s -> consistent (state_after (StartIONonRT id) s).
Proof.
  intros (W & K & C). pose proof W as [R _]. pose proof R as (E1 & _).
  unfold state_after.
  destruct (ClientMap.GetClientNonRT id (mClientMap s)) as [c|] eqn:E.
  - destruct (mDoingIO c) eqn:D.
    + rewrite (ClientsFacts.StartIONonRT_already_doing_IO _ _ _ E D).
      exact (conj W (conj K C)).
    + destruct (Z.eq_dec (mStartCount s) UINT64_MAX) as [F|F].
      * rewrite (ClientsFacts.StartIONonRT_maxed_out _ _ _ E D F).
        exact (conj W (conj K C)).
      * assert (0 <= clients_doing_IO s) by (unfold clients_doing_IO; lia).
        rewrite (ClientsFacts.StartIONonRT_starts _ _ _ E D) by lia. simpl.
        split; [now apply ClientMapFacts.wf_updated|]. split.
        -- unfold filed_under_own_ID. simpl.
           now apply (filed_under_own_ID_updated s _ id true c).
        -- unfold clients_doing_IO in *. simpl.
           unfold ClientMap.assign_mDoingIO. rewrite E1.
           unfold ClientMap.GetClientNonRT, ClientMap.GetClient in E.
           rewrite (size_doing_insert_busy _ _ c) by
             (try assumption; rewrite (lookup_total_correct _ _ _ E); reflexivity).
           lia.
  - rewrite (ClientsFacts.StartIONonRT_unknown _ _ E). exact (conj W (conj K C)).
Qed.

Lemma consistent_StopIONonRT s id :
  consistent s -> consistent (state_after (StopIONonRT id) s).
Proof.
  intros (W & K & C). pose proof W as [R _]. pose proof R as (E1 & _).
  unfold state_after.
  destruct (ClientMap.GetClientNonRT id (mClientMap s)) as [c|] eqn:E.
  - destruct (mDoingIO c) eqn:D.
    + pose proof (busy_client_counted _ _ _ E D) as B.
      rewrite (ClientsFacts.StopIONonRT_stops _ _ _ E D) by lia. simpl.
      split; [now apply ClientMapFacts.wf_updated|]. split.
      * unfold filed_under_own_ID. simpl.
        now apply (filed_under_own_ID_updated s _ id false c).
      * unfold clients_doing_IO in *. simpl.
        unfold ClientMap.assign_mDoingIO. rewrite E1.
        unfold ClientMap.GetClientNonRT, ClientMap.GetClient in E.
        pose proof (size_doing_insert_stop
                      (ClientMap.mClientMapShadow (mClientMap s)) id c
                      (set_mDoingIO false
                         (ClientMap.mClientMapShadow (mClientMap s) !!! id))
                      E D eq_refl). lia.
    + rewrite (ClientsFacts.StopIONonRT_not_doing_IO _ _ _ E D).
      exact (conj W (conj K C)).
  - rewrite (ClientsFacts.StopIONonRT_unknown _ _ E). exact (conj W (conj K C)).
Qed.

Lemma consistent_perform c s : consistent s -> consistent (perform c s).
Proof.
  destruct c; simpl.
  - apply consistent_AddClient.
  - apply consistent_RemoveClient.
  - apply consistent_StartIONonRT.
  - apply consistent_StopIONonRT.
Qed.

Lemma consistent_history dev cs : consistent (history dev cs).
Proof.
  unfold history. generalize (consistent_init dev).
  generalize (init dev). induction cs as [|c cs IH]; intros s H; simpl.
  - exact H.
  - apply IH. now apply consistent_perform.
Qed.

(** X5. After any sequence of the calls the device makes on its
    RDC_Clients (AddClient and RemoveClient from a client info,
    StartIONonRT, StopIONonRT), every record that GetClientNonRT or
    GetClientRT finds under an ID carries that ID: the registration check
    of StartIONonRT and StopIONonRT keeps the IO-state update of the client
    map from creating records for unknown IDs. *)
Theorem Clients_records_filed_under_own_ID :
  forall (dev : Z) (cs : list call) (id : Z) (c : RDC_Client),
    let s := history dev cs in
    (ClientMap.GetClientNonRT id (mClientMap s) = Some c -> mClientID c = id) /\
    (ClientMap.GetClientRT id (mClientMap s) = Some c -> mClientID c = id).
Proof.
  intros dev cs id c s.
  destruct (consistent_history dev cs) as ([(E1 & _) _] & K & _). fold s in E1, K.
  split; [apply K|].
  unfold ClientMap.GetClientRT. rewrite E1. apply K.
Qed.

(** X6. After any sequence of the calls the device makes on its
    RDC_Clients, the number of registered clients doing IO is at most
    mStartCount, which is at most UINT64_MAX; so ClientsRunningIO is true
    whenever some registered client is doing IO, and StopIONonRT never
    throws a CAException (its underflow guard never fires). *)
Theorem Clients_start_count_covers_clients_doing_IO :
  forall (dev : Z) (cs : list call) (id : Z),
    let s := history dev cs in
    clients_doing_IO s <= mStartCount s <= UINT64_MAX /\
    (forall c, ClientMap.GetClientNonRT id (mClientMap s) = Some c ->
               mDoingIO c = true -> ClientsRunningIO s = true) /\
    (forall status, result_of (StopIONonRT id) s <> Thrown (CAException status)).
Proof.
  intros dev cs id s.
  destruct (consistent_history dev cs) as (W & K & C). fold s in W, K, C.
  split; [exact C|]. split.
  - intros c E D. pose proof (busy_client_counted _ _ _ E D).
    unfold ClientsRunningIO. apply Z.ltb_lt. lia.
  - intros status. unfold result_of.
    destruct (ClientMap.GetClientNonRT id (mClientMap s)) as [c|] eqn:E.
    + destruct (mDoingIO c) eqn:D.
      * pose proof (busy_client_counted _ _ _ E D) as B.
        rewrite (ClientsFacts.StopIONonRT_stops _ _ _ E D) by lia. discriminate.
      * rewrite (ClientsFacts.StopIONonRT_not_doing_IO _ _ _ E D). discriminate.
    + rewrite (ClientsFacts.StopIONonRT_unknown _ _ E). discriminate.
Qed.

(** X7. StartIONonRT and StopIONonRT put one
    kAudioDevicePropertyDeviceIsRunning notification for the owning device
    on the dispatch queue exactly when they return true; a call that
    returns false or throws dispatches nothing. *)
Theorem IsRunning_notification_iff_returned_true :
  forall (s : t) (id : Z),
    let notified (m : M t bool) :=
      dispatched (state_after m s)
      = match result_of m s with
        | Returned true =>
            dispatched s ++ [kAudioDevicePropertyDeviceIsRunning (mOwnerDeviceID s)]
        | _ => dispatched s
        end in
    notified (StartIONonRT id) /\ notified (StopIONonRT id).
Proof.
  intros s id notified. subst notified. unfold result_of, state_after.
  unfold StartIONonRT, StopIONonRT, SendIORunningNotifications, onClientMap,
    ClientMap.StartIONonRT, ClientMap.StopIONonRT,
    ClientMap.UpdateClientIOStateNonRT, ClientMap.SwapInShadowMaps,
    ClientMap.SwapInShadowMapsRT, with_StartCount,
    bind, get, modify, ThrowIf, Throw, ret; simpl.
  destruct (ClientMap.GetClientNonRT id (mClientMap s)) as [c|]; simpl.
  - destruct (mDoingIO c); simpl.
    + split; [reflexivity|].
      destruct (mStartCount s <=? 0); simpl; [reflexivity|].
      destruct ((mStartCount s - 1) mod 2 ^ 64 =? 0); reflexivity.
    + split; [|reflexivity].
      destruct (mStartCount s =? UINT64_MAX); simpl; [reflexivity|].
      destruct ((mStartCount s + 1) mod 2 ^ 64 =? 1); reflexivity.
  - split; reflexivity.
Qed.

(** X8. Removing a client while it is doing IO, in any state the device's
    calls can reach: RemoveClient returns normally and leaves mStartCount
    as it was, with one client fewer doing IO and no notification sent, so
    ClientsRunningIO stays true; StopIONonRT for the removed ID then throws
    InvalidClient and changes nothing. *)
Theorem RemoveClient_while_doing_IO_keeps_count :
  forall (dev : Z) (cs : list call) (i : AudioServerPlugInClientInfo.t)
         (c : RDC_Client),
    let id := AudioServerPlugInClientInfo.mClientID i in
    let s := history dev cs in
    ClientMap.GetClientNonRT id (mClientMap s) = Some c ->
    mDoingIO c = true ->
    let s' := state_after (RemoveClient i) s in
    result_of (RemoveClient i) s = Returned tt /\
    mStartCount s' = mStartCount s /\
    dispatched s' = dispatched s /\
    ClientsRunningIO s' = true /\
    clients_doing_IO s' = clients_doing_IO s - 1 /\
    StopIONonRT id s' = (Thrown RDC_InvalidClientException, s').
Proof.
  intros dev cs i c id s E D s'. subst s'.
  destruct (consistent_history dev cs) as (W & K & C). fold s in W, K, C.
  pose proof W as [(E1 & _) _].
  pose proof (busy_client_counted _ _ _ E D) as B.
  unfold result_of, state_after, RemoveClient. fold id.
  rewrite ClientsFacts.RemoveClient_eq.
  unfold ClientMap.GetClientNonRT, ClientMap.GetClient in E.
  rewrite (ClientMapFacts.RemoveClient_present _ _ _ E). simpl.
  split; [reflexivity|]. split; [reflexivity|]. split; [reflexivity|].
  split; [unfold ClientsRunningIO; simpl; apply Z.ltb_lt; lia|]. split.
  - unfold clients_doing_IO in *. simpl. rewrite E1.
    rewrite map_filter_delete.
    assert (F : filter doing (ClientMap.mClientMapShadow (mClientMap s)) !! id
                = Some c)
      by (apply map_lookup_filter_Some; auto).
    rewrite map_size_delete, F. simpl. lia.
  - apply ClientsFacts.StopIONonRT_unknown.
    unfold ClientMap.GetClientNonRT, ClientMap.GetClient. simpl.
    apply lookup_delete_eq.
Qed.

Lemma RemoveClient_while_doing_IO_keeps_count_witness :
  let s := history 2 removed_while_running in
  let s' := state_after (RemoveClient client_1) s in
  ClientMap.GetClientNonRT 1 (mClientMap s)
    = Some (set_mDoingIO true (RDC_Client_from client_1)) /\
  ClientsRunningIO s' = true /\
  clients_doing_IO s' = 0 /\
  ClientMap.mClientMap (mClientMap s') = ∅.
Proof.
  intros s s'.
  assert (E : ClientMap.GetClientNonRT 1 (mClientMap s)
              = Some (set_mDoingIO true (RDC_Client_from client_1)))
    by (vm_compute; reflexivity).
  split; [exact E|].
  destruct (RemoveClient_while_doing_IO_keeps_count 2 removed_while_running
              client_1 _ E eq_refl) as (_ & _ & _ & R & N & _).
  split; [exact R|]. split.
  - fold s s' in N. rewrite N. vm_compute. reflexivity.
  - vm_compute. reflexivity.
Defined.

(** X9. On a registry at rest, for a registered client that is not doing
    IO and a count below UINT64_MAX, StartIONonRT followed by StopIONonRT
    gives back the client map and the count; both calls return true when
    the count was 0 (two notifications are dispatched) and false otherwise
    (none is). *)
Theorem StartIONonRT_then_StopIONonRT_round_trip :
  forall (s : t) (id : Z) (c : RDC_Client),
    ClientMap.at_rest (mClientMap s) ->
    ClientMap.GetClientNonRT id (mClientMap s) = Some c ->
    mDoingIO c = false ->
    0 <= mStartCount s < UINT64_MAX ->
    let s1 := state_after (StartIONonRT id) s in
    let s2 := state_after (StopIONonRT id) s1 in
    result_of (StartIONonRT id) s = Returned (mStartCount s =? 0) /\
    result_of (StopIONonRT id) s1 = Returned (mStartCount s =? 0) /\
    mClientMap s2 = mClientMap s /\
    mStartCount s2 = mStartCount s /\
    dispatched s2
    = if mStartCount s =? 0
      then dispatched s ++ [kAudioDevicePropertyDeviceIsRunning (mOwnerDeviceID s);
                            kAudioDevicePropertyDeviceIsRunning (mOwnerDeviceID s)]
      else dispatched s.
Proof.
  intros s id c R E D C s1 s2. subst s1 s2. unfold result_of, state_after.
  rewrite (ClientsFacts.StartIONonRT_starts _ _ _ E D C). simpl.
  destruct (ClientsFacts.updated_lookup _ id true c R E) as [U _].
  rewrite (ClientsFacts.StopIONonRT_stops (started id s) id _ U eq_refl)
    by (simpl; lia).
  simpl. split; [reflexivity|].
  replace (mStartCount s + 1 =? 1) with (mStartCount s =? 0)
    by (destruct (Z.eqb_spec (mStartCount s) 0), (Z.eqb_spec (mStartCount s + 1) 1);
        lia || reflexivity).
  split; [reflexivity|]. split; [|split; [lia|]].
  - destruct R as (E1 & E2 & E3).
    unfold ClientMap.GetClientNonRT, ClientMap.GetClient in E.
    assert (I : ClientMap.assign_mDoingIO id false
                  (ClientMap.assign_mDoingIO id true
                     (ClientMap.mClientMapShadow (mClientMap s)))
                = ClientMap.mClientMapShadow (mClientMap s)).
    { unfold ClientMap.assign_mDoingIO.
      rewrite lookup_total_insert_eq, insert_insert_eq.
      rewrite (lookup_total_correct _ _ _ E).
      apply insert_id. rewrite E. clear E.
      destruct c as [ci cp cn cb cd]. simpl in D. subst cd. reflexivity. }
    destruct (mClientMap s); simpl in *. subst.
    unfold ClientMap.updated; simpl. rewrite I. reflexivity.
  - destruct (mStartCount s =? 0); [|reflexivity].
    rewrite <- app_assoc. reflexivity.
Qed.

Lemma StartIONonRT_then_StopIONonRT_round_trip_witness :
  let s := two_clients_one_busy in
  let s2 := state_after (StopIONonRT 2) (state_after (StartIONonRT 2) s) in
  ClientMap.at_rest (mClientMap s) /\
  ClientMap.GetClientNonRT 2 (mClientMap s) = Some (mkClient 2 200 true None false) /\
  0 <= mStartCount s < UINT64_MAX /\
  mClientMap s2 = mClientMap s /\
  mStartCount s2 = mStartCount s /\
  dispatched s2 = dispatched s.
Proof.
  intros s s2.
  assert (R : ClientMap.at_rest (mClientMap s))
    by (repeat split; vm_compute; reflexivity).
  assert (E : ClientMap.GetClientNonRT 2 (mClientMap s)
              = Some (mkClient 2 200 true None false))
    by (vm_compute; reflexivity).
  assert (C : 0 <= mStartCount s < UINT64_MAX)
    by (vm_compute; split; [discriminate|reflexivity]).
  split; [exact R|]. split; [exact E|]. split; [exact C|].
  destruct (StartIONonRT_then_StopIONonRT_round_trip s 2 _ R E eq_refl C)
    as (_ & _ & H1 & H2 & H3).
  assert (Z1 : (mStartCount s =? 0) = false) by (vm_compute; reflexivity).
  rewrite Z1 in H3.
  split; [exact H1|]. split; [exact H2|]. exact H3.
Defined.

End DeviceClientsFacts.

Module RingBufferFacts.
Import RingBuffer.

(** Scenarios 1 to 3 of the specification, on two-byte frames. *)
Example scenario_basic_round_trip :
  GetTimeBounds after_store_0 = Bounds 0 2 /\
  Fetch (zeros 4) 2 0 after_store_0 = (kCARingBufferError_OK, frames_1234).
Proof. split; vm_compute; reflexivity. Qed.

Example scenario_gap_reset :
  let rb := snd (Store frames_1234 2 100 after_store_0) in
  GetTimeBounds rb = Bounds 100 102 /\
  Fetch frames_1234 2 0 rb = (kCARingBufferError_OK, zeros 4).
Proof. split; vm_compute; reflexivity. Qed.

Example scenario_fetch_clipping :
  Fetch (zeros 8) 4 (-1) after_store_0
  = (kCARingBufferError_OK, [x00; x00; x01; x02; x03; x04; x00; x00]).
Proof. vm_compute; reflexivity. Qed.

(** *** Wrap-around reads and writes *)

Lemma length_write_at st off data :
  (off + length data <= length st)%nat ->
  length (write_at st off data) = length st.
Proof.
  intros H. unfold write_at.
  rewrite !length_app, length_take, length_drop. lia.
Qed.

Lemma read_write_at st off data :
  (off <= length st)%nat ->
  read_at (write_at st off data) off (length data) = data.
Proof.
  intros H. unfold read_at, write_at.
  rewrite drop_app_length' by (rewrite length_take; lia).
  apply take_app_length.
Qed.

Lemma length_write_wrap st off data :
  (off <= length st)%nat -> (length data <= length st)%nat ->
  length (write_wrap st off data) = length st.
Proof.
  intros Ho Hd. unfold write_wrap.
  destruct (Nat.leb_spec (length data) (length st - off)) as [Hfit|Hwrap].
  - apply length_write_at. lia.
  - assert (L1 : length (write_at st off (take (length st - off) data)) = length st).
    { apply length_write_at. rewrite length_take. lia. }
    rewrite length_write_at; [exact L1|].
    rewrite L1, length_drop. lia.
Qed.

(** What has just been written at an offset is what is read back from it,
    wrap-around included, as long as it fits the region. *)
Lemma read_write_wrap st off data :
  (off <= length st)%nat -> (length data <= length st)%nat ->
  read_wrap (write_wrap st off data) off (length data) = data.
Proof.
  intros Ho Hd. unfold read_wrap.
  rewrite length_write_wrap by assumption. unfold write_wrap.
  destruct (Nat.leb_spec (length data) (length st - off)) as [Hfit|Hwrap].
  - now apply read_write_at.
  - set (room := (length st - off)%nat) in *.
    set (d1 := take room data). set (d2 := drop room data).
    assert (Ld1 : length d1 = room) by (unfold d1; rewrite length_take; lia).
    assert (Ld2 : length d2 = (length data - room)%nat)
      by (unfold d2; now rewrite length_drop).
    assert (S1 : write_at st off d1 = take off st ++ d1).
    { unfold write_at. rewrite drop_ge by lia. now rewrite app_nil_r. }
    assert (S2 : write_at (write_at st off d1) 0 d2
                 = d2 ++ drop (length d2) (take off st ++ d1)).
    { unfold write_at at 1. rewrite take_0, S1. reflexivity. }
    rewrite S2. unfold read_at.
    rewrite drop_app_ge by lia.
    rewrite drop_drop.
    replace (length d2 + (off - length d2))%nat with off by lia.
    rewrite drop_app_length' by (rewrite length_take; lia).
    rewrite (take_ge d1) by lia.
    rewrite drop_0. rewrite <- Ld2, take_app_length.
    apply take_drop.
Qed.

(** *** The time-bounds queue, read and written by one thread *)

Lemma land_queue_mask head :
  Z.land head kGeneralRingTimeBoundsQueueMask
  = head mod kGeneralRingTimeBoundsQueueSize.
Proof.
  change kGeneralRingTimeBoundsQueueMask with (Z.ones 5).
  change kGeneralRingTimeBoundsQueueSize with (2 ^ 5).
  apply Z.land_ones. lia.
Qed.

(** When the slot named by the sequence counter carries that counter, the
    first attempt succeeds. *)
Lemma GetTimeBounds_consistent rb :
  mUpdateCounter (current_slot rb) = mTimeBoundsQueuePtr rb ->
  GetTimeBounds rb = Bounds (StartTime rb) (EndTime rb).
Proof.
  unfold GetTimeBounds, StartTime, EndTime, current_slot. simpl.
  rewrite land_queue_mask. intros ->.
  now rewrite Z.eqb_refl.
Qed.

Lemma current_slot_SetTimeBounds rb s e :
  length (mTimeBoundsQueue rb) = 32%nat ->
  0 <= mTimeBoundsQueuePtr rb < 2 ^ 32 ->
  current_slot (SetTimeBounds s e rb)
  = mkBounds s e ((mTimeBoundsQueuePtr rb + 1) mod 2 ^ 32).
Proof.
  intros L H. unfold current_slot, SetTimeBounds, with_bounds; simpl.
  rewrite land_queue_mask.
  assert (I : ((mTimeBoundsQueuePtr rb + 1) mod 2 ^ 32)
                mod kGeneralRingTimeBoundsQueueSize
              = (mTimeBoundsQueuePtr rb + 1) mod kGeneralRingTimeBoundsQueueSize).
  { unfold kGeneralRingTimeBoundsQueueSize.
    apply Z.mod_mod_divide. exists (2 ^ 27). reflexivity. }
  rewrite I. apply list_lookup_total_insert_eq. rewrite L.
  pose proof (Z.mod_pos_bound (mTimeBoundsQueuePtr rb + 1)
                kGeneralRingTimeBoundsQueueSize) as B.
  unfold kGeneralRingTimeBoundsQueueSize in *. lia.
Qed.

Lemma ok_SetTimeBounds rb s e buf :
  ok rb ->
  length buf = length (mBuffers rb) ->
  0 <= e - s <= mCapacityFrames rb ->
  ok (SetTimeBounds s e (with_buffers buf rb)).
Proof.
  intros (K & M & B & C & L & Q & H & U & W) Lb Hse.
  assert (CS : current_slot (SetTimeBounds s e (with_buffers buf rb))
               = mkBounds s e ((mTimeBoundsQueuePtr rb + 1) mod 2 ^ 32))
    by (apply (current_slot_SetTimeBounds (with_buffers buf rb)); assumption).
  unfold ok, StartTime, EndTime. rewrite CS. simpl.
  repeat split; try assumption; try lia.
  - now rewrite length_insert.
  - apply Z.mod_pos_bound. lia.
  - apply Z.mod_pos_bound. lia.
Qed.

Lemma ok_Allocate nChannels bytesPerFrame capacityFrames :
  0 <= bytesPerFrame ->
  NextPowerOfTwo capacityFrames * bytesPerFrame < 2 ^ 32 ->
  ok (Allocate nChannels bytesPerFrame capacityFrames).
Proof.
  intros B C. unfold ok, Allocate, StartTime, EndTime, current_slot; simpl.
  repeat split; try assumption; try lia.
  - exists (Z.log2_up capacityFrames). split; [apply Z.log2_up_nonneg | reflexivity].
  - unfold zeros. now rewrite length_replicate.
  - unfold NextPowerOfTwo. pose proof (Z.log2_up_nonneg capacityFrames).
    apply Z.lt_le_incl, Z.pow_pos_nonneg; lia.
Qed.

(** [FrameOffset] stays inside the storage. *)
Lemma FrameOffset_in_range rb frameNumber :
  ok rb ->
  FrameOffset rb frameNumber
    = (frameNumber mod mCapacityFrames rb) * mBytesPerFrame rb /\
  (Z.to_nat (FrameOffset rb frameNumber) <= length (mBuffers rb))%nat.
Proof.
  intros ((k & Hk & K) & M & B & C & L & _).
  assert (P : 0 < mCapacityFrames rb) by (rewrite K; apply Z.pow_pos_nonneg; lia).
  assert (E : Z.land frameNumber (mCapacityFramesMask rb)
              = frameNumber mod mCapacityFrames rb).
  { rewrite M, K. replace (2 ^ k - 1) with (Z.ones k)
      by (rewrite Z.ones_equiv; lia).
    now apply Z.land_ones. }
  pose proof (Z.mod_pos_bound frameNumber (mCapacityFrames rb) P) as R.
  unfold FrameOffset. rewrite E.
  assert (S : 0 <= frameNumber mod mCapacityFrames rb * mBytesPerFrame rb
              <= mCapacityFrames rb * mBytesPerFrame rb) by nia.
  rewrite Z.mod_small by lia. split; [reflexivity|]. rewrite L. lia.
Qed.

(** *** Store, within the caller contract *)

(** A store of at most the capacity that does not start before the current
    start time succeeds; it leaves the frames in the storage at the frame's
    offset and publishes bounds that begin at the frame number and cover
    the frames. *)
Lemma Store_in_contract rb frames nFrames frameNumber :
  ok rb ->
  0 <= nFrames <= mCapacityFrames rb ->
  StartTime rb <= frameNumber ->
  exists zeroed newEnd,
    length zeroed = length (mBuffers rb) /\
    frameNumber + nFrames <= newEnd <= frameNumber + mCapacityFrames rb /\
    Store frames nFrames frameNumber rb
    = (kCARingBufferError_OK,
       SetTimeBounds frameNumber newEnd
         (with_buffers
            (write_wrap zeroed (Z.to_nat (FrameOffset rb frameNumber))
               (take (Z.to_nat (nFrames * mBytesPerFrame rb)) frames))
            rb)).
Proof.
  intros Hok Hn Hs.
  pose proof Hok as (K & M & B & C & L & Q & H & U & W).
  unfold Store.
  replace (mCapacityFrames rb <? nFrames) with false
    by (symmetry; apply Z.ltb_ge; lia).
  rewrite (GetTimeBounds_consistent rb U).
  set (S0 := StartTime rb) in *. set (E0 := EndTime rb) in *.
  destruct (Z.ltb_spec E0 frameNumber) as [Hgap|Hnogap]; simpl.
  - destruct (Z.ltb_spec (mCapacityFrames rb) (frameNumber - E0)) as [Hbig|Hsmall];
      simpl.
    + exists (mBuffers rb), (frameNumber + nFrames).
      split; [reflexivity|]. split; [lia|].
      repeat f_equal; lia.
    + eexists _, (frameNumber + nFrames).
      split; [|split; [lia|]].
      2: { repeat f_equal; lia. }
      apply length_write_wrap.
      * now apply FrameOffset_in_range.
      * unfold zeros. rewrite length_replicate, L. nia.
  - exists (mBuffers rb), (Z.max (frameNumber + nFrames) E0).
    split; [reflexivity|]. split; [lia|].
    repeat f_equal; lia.
Qed.

(** RB1 for stores within the contract: the invariant is kept. *)
Lemma ok_Store rb frames nFrames frameNumber :
  ok rb ->
  0 <= nFrames <= mCapacityFrames rb ->
  StartTime rb <= frameNumber ->
  ok (snd (Store frames nFrames frameNumber rb)).
Proof.
  intros Hok Hn Hs.
  destruct (Store_in_contract rb frames nFrames frameNumber Hok Hn Hs)
    as (zeroed & newEnd & Lz & Hend & ->). simpl.
  pose proof (FrameOffset_in_range rb frameNumber Hok) as [_ Ho].
  pose proof Hok as (_ & _ & B & _ & L & _).
  apply ok_SetTimeBounds; [assumption | | lia].
  rewrite length_write_wrap; [assumption | lia |].
  rewrite length_take, Lz, L. nia.
Qed.

(** C6 (RB3), where it fails. The buffer holds frames 100 and 101. Two
    frames are then stored at sample time 0, before the current start
    time: the store reports success, the published bounds stay (100, 102),
    and the fetch of two frames at sample time 0 that follows returns
    silence, not the frames stored. *)
Lemma Store_before_start_time_is_not_fetched :
  let rb := snd (Store frames_1234 2 100 ring8) in
  let stored := Store [x0a; x0b; x0c; x0d] 2 0 rb in
  StartTime rb = 100 /\
  2 <= mCapacityFrames rb /\
  fst stored = kCARingBufferError_OK /\
  GetTimeBounds (snd stored) = Bounds 100 102 /\
  Fetch [x01; x01; x01; x01] 2 0 (snd stored) = (kCARingBufferError_OK, zeros 4) /\
  snd (Fetch [x01; x01; x01; x01] 2 0 (snd stored)) <> [x0a; x0b; x0c; x0d].
Proof.
  vm_compute. repeat split; try reflexivity; discriminate.
Qed.

(** C6 (RB3), within the caller contract. On a ring buffer in a valid
    state, for every frame array of n frames with n at most the capacity
    and every sample time t that is not before the buffer's current start
    time, Store(frames, n, t) succeeds and a Fetch(out, n, t) that follows
    it, with no store in between, succeeds and leaves exactly the bytes of
    frames in the first n frames of out (and the rest of out as it was). *)
Theorem Store_then_Fetch_round_trip :
  forall (rb : t) (frames out : list byte) (n t : Z),
    ok rb ->
    0 <= n <= mCapacityFrames rb ->
    length frames = Z.to_nat (n * mBytesPerFrame rb) ->
    StartTime rb <= t ->
    fst (Store frames n t rb) = kCARingBufferError_OK /\
    Fetch out n t (snd (Store frames n t rb))
    = (kCARingBufferError_OK, frames ++ drop (length frames) out).
Proof.
  intros rb frames out n t Hok Hn Lf Hs.
  destruct (Store_in_contract rb frames n t Hok Hn Hs)
    as (zeroed & newEnd & Lz & Hend & E).
  pose proof (ok_Store rb frames n t Hok Hn Hs) as Hok'.
  rewrite E in *. simpl in *. split; [reflexivity|].
  pose proof Hok as (_ & _ & B & _ & L & Q & H & _).
  pose proof (FrameOffset_in_range rb t Hok) as [_ Ho].
  set (stored := write_wrap zeroed (Z.to_nat (FrameOffset rb t))
                   (take (Z.to_nat (n * mBytesPerFrame rb)) frames)) in *.
  set (rb' := SetTimeBounds t newEnd (with_buffers stored rb)) in *.
  assert (CS : current_slot rb'
               = mkBounds t newEnd ((mTimeBoundsQueuePtr rb + 1) mod 2 ^ 32))
    by (apply (current_slot_SetTimeBounds (with_buffers stored rb)); assumption).
  destruct Hok' as (_ & _ & _ & _ & _ & _ & _ & U' & _).
  unfold Fetch. rewrite (GetTimeBounds_consistent rb' U').
  unfold StartTime, EndTime. rewrite CS. simpl.
  rewrite Z.max_id, Z.min_l by lia.
  rewrite <- Lf.
  destruct (Z.leb_spec (t + n) t) as [Hzero|Hpos].
  - assert (n = 0) by lia. subst n. simpl in Lf.
    destruct frames; [|discriminate]. reflexivity.
  - replace (Z.to_nat ((t - t) * mBytesPerFrame rb)) with 0%nat by lia.
    replace (Z.to_nat ((t + n - (t + n)) * mBytesPerFrame rb)) with 0%nat by lia.
    replace (Z.to_nat ((t + n - t) * mBytesPerFrame rb)) with (length frames)
      by (rewrite Lf; f_equal; lia).
    change (FrameOffset rb' t) with (FrameOffset rb t).
    simpl. f_equal. f_equal.
    subst stored. rewrite take_ge by lia.
    apply read_write_wrap; [lia|].
    rewrite Lz, L, Lf. nia.
Qed.

Lemma Store_then_Fetch_round_trip_witness :
  ok after_store_0 /\
  0 <= 2 <= mCapacityFrames after_store_0 /\
  length [x0a; x0b; x0c; x0d] = Z.to_nat (2 * mBytesPerFrame after_store_0) /\
  StartTime after_store_0 <= 7 /\
  fst (Store [x0a; x0b; x0c; x0d] 2 7 after_store_0) = kCARingBufferError_OK /\
  Fetch (zeros 4) 2 7 (snd (Store [x0a; x0b; x0c; x0d] 2 7 after_store_0))
  = (kCARingBufferError_OK, [x0a; x0b; x0c; x0d] ++ drop 4 (zeros 4)).
Proof.
  assert (O : ok after_store_0).
  { apply ok_Store; [apply ok_Allocate; vm_compute; [discriminate|reflexivity]
                    | vm_compute; split; discriminate
                    | vm_compute; discriminate]. }
  assert (N : 0 <= 2 <= mCapacityFrames after_store_0)
    by (vm_compute; split; discriminate).
  assert (L : length [x0a; x0b; x0c; x0d]
              = Z.to_nat (2 * mBytesPerFrame after_store_0)) by reflexivity.
  assert (S : StartTime after_store_0 <= 7) by (vm_compute; discriminate).
  split; [exact O|]. split; [exact N|]. split; [exact L|]. split; [exact S|].
  exact (Store_then_Fetch_round_trip after_store_0 [x0a; x0b; x0c; x0d]
           (zeros 4) 2 7 O N L S).
Defined.

End RingBufferFacts.

Module Binary64Facts.
Import Device.

Local Open Scope Q_scope.

Lemma pow2_pos e : 0 < 2 ^ e.
Proof. apply Qpower_0_lt. reflexivity. Qed.

Lemma pow2_plus a b : 2 ^ (a + b) == 2 ^ a * 2 ^ b.
Proof. apply Qpower_plus. discriminate. Qed.

Lemma pow2_le a b : (a <= b)%Z -> 2 ^ a <= 2 ^ b.
Proof. intros H. apply Qpower_le_compat_l; [assumption | discriminate]. Qed.

Lemma pow2_lt_inv a b : 2 ^ a < 2 ^ b -> (a < b)%Z.
Proof. intros H. apply (Qpower_lt_compat_l_inv 2); [assumption | reflexivity]. Qed.

Lemma pow2_Z e : (0 <= e)%Z -> 2 ^ e == inject_Z (2 ^ e).
Proof. intros H. symmetry. apply (Zpower_Qpower 2 e H). Qed.

(** *** Rounding to the nearest integer, ties to even *)

Lemma Qround_half_even_comp x y : x == y -> Qround_half_even x = Qround_half_even y.
Proof.
  intros E. unfold Qround_half_even.
  rewrite (Qfloor_comp _ _ E).
  assert (C : (x - inject_Z (Qfloor y) ?= 1 # 2) = (y - inject_Z (Qfloor y) ?= 1 # 2)).
  { apply Qcompare_comp; [|reflexivity]. rewrite E. reflexivity. }
  rewrite C. reflexivity.
Qed.

Lemma Qround_half_even_Z z : Qround_half_even (inject_Z z) = z.
Proof.
  unfold Qround_half_even. rewrite Qfloor_Z.
  assert (C : (inject_Z z - inject_Z z ?= 1 # 2) = Lt).
  { apply Qlt_alt.
    assert (E : inject_Z z - inject_Z z == 0) by ring.
    rewrite E. reflexivity. }
  now rewrite C.
Qed.

Lemma Qround_half_even_bounds x :
  (Qfloor x <= Qround_half_even x <= Qfloor x + 1)%Z.
Proof.
  unfold Qround_half_even.
  destruct (x - inject_Z (Qfloor x) ?= 1 # 2); [destruct (Z.even _)| |]; lia.
Qed.

Lemma Qround_half_even_mono x y :
  x <= y -> (Qround_half_even x <= Qround_half_even y)%Z.
Proof.
  intros H. pose proof (Qfloor_resp_le _ _ H) as F.
  pose proof (Qround_half_even_bounds x) as Bx.
  pose proof (Qround_half_even_bounds y) as By.
  destruct (Z.eq_dec (Qfloor x) (Qfloor y)) as [E|N]; [|lia].
  unfold Qround_half_even in *. rewrite E in *.
  assert (R : x - inject_Z (Qfloor y) <= y - inject_Z (Qfloor y)).
  { apply Qplus_le_l. exact H. }
  destruct (x - inject_Z (Qfloor y) ?= 1 # 2) eqn:Cx;
    destruct (y - inject_Z (Qfloor y) ?= 1 # 2) eqn:Cy;
    try (destruct (Z.even (Qfloor y))); try lia; exfalso.
  - apply Qeq_alt in Cx. apply Qlt_alt in Cy. rewrite Cx in R.
    exact (Qlt_not_le _ _ Cy R).
  - apply Qgt_alt in Cx. apply Qeq_alt in Cy. rewrite Cy in R.
    exact (Qlt_not_le _ _ Cx R).
  - apply Qgt_alt in Cx. apply Qlt_alt in Cy.
    apply (Qlt_not_le _ _ Cy). eapply Qle_trans; [|exact R].
    apply Qlt_le_weak. exact Cx.
  - apply Qgt_alt in Cx. apply Qlt_alt in Cy.
    apply (Qlt_not_le _ _ Cy). eapply Qle_trans; [|exact R].
    apply Qlt_le_weak. exact Cx.
Qed.

Lemma Qround_half_even_le_Z x z : x <= inject_Z z -> (Qround_half_even x <= z)%Z.
Proof.
  intros H. rewrite <- (Qround_half_even_Z z). now apply Qround_half_even_mono.
Qed.

Lemma Qround_half_even_ge_Z x z : inject_Z z <= x -> (z <= Qround_half_even x)%Z.
Proof.
  intros H. rewrite <- (Qround_half_even_Z z). now apply Qround_half_even_mono.
Qed.

(** *** The binade of a positive rational *)

Lemma Qlog2_spec x : 0 < x -> 2 ^ Qlog2 x <= x /\ x < 2 ^ (Qlog2 x + 1).
Proof.
  intros Hx. destruct x as [n d]. unfold Qlog2. simpl Qnum. simpl Qden.
  assert (Hn : (0 < n)%Z) by (unfold Qlt in Hx; simpl in Hx; lia).
  set (a := Z.log2 n). set (b := Z.log2 (Z.pos d)).
  assert (Ha : (2 ^ a <= n < 2 ^ (a + 1))%Z).
  { pose proof (Z.log2_spec n Hn). unfold a. now rewrite <- Z.add_1_r in *. }
  assert (Hb : (2 ^ b <= Z.pos d < 2 ^ (b + 1))%Z).
  { pose proof (Z.log2_spec (Z.pos d) eq_refl). unfold b.
    now rewrite <- Z.add_1_r in *. }
  assert (A0 : (0 <= a)%Z) by apply Z.log2_nonneg.
  assert (B0 : (0 <= b)%Z) by apply Z.log2_nonneg.
  assert (Qn : 2 ^ a <= inject_Z n /\ inject_Z n < 2 ^ (a + 1)).
  { rewrite !pow2_Z by lia. rewrite <- Zle_Qle, <- Zlt_Qlt. exact Ha. }
  assert (Qd : 2 ^ b <= inject_Z (Z.pos d) /\ inject_Z (Z.pos d) < 2 ^ (b + 1)).
  { rewrite !pow2_Z by lia. rewrite <- Zle_Qle, <- Zlt_Qlt. exact Hb. }
  assert (Dp : 0 < inject_Z (Z.pos d)) by reflexivity.
  assert (X : n # d == inject_Z n / inject_Z (Z.pos d)) by apply Qmake_Qdiv.
  destruct (Qle_bool (2 ^ (a - b)) (n # d)) eqn:L.
  - apply Qle_bool_iff in L. split; [exact L|].
    rewrite X. apply Qlt_shift_div_r; [exact Dp|].
    apply (Qlt_le_trans _ (2 ^ (a + 1))); [apply Qn|].
    assert (E : 2 ^ (a + 1) == 2 ^ (a - b + 1) * 2 ^ b)
      by (rewrite <- pow2_plus; apply Qpower_comp; [reflexivity|lia]).
    rewrite E.
    apply Qmult_le_l; [apply pow2_pos | apply Qd].
  - assert (G : n # d < 2 ^ (a - b)).
    { apply Qnot_le_lt. intros C. apply Qle_bool_iff in C. congruence. }
    split.
    + rewrite X. apply Qle_shift_div_l; [exact Dp|].
      apply (Qle_trans _ (2 ^ a)); [|apply Qn].
      assert (E : 2 ^ a == 2 ^ (a - b - 1) * 2 ^ (b + 1))
        by (rewrite <- pow2_plus; apply Qpower_comp; [reflexivity|lia]).
      rewrite E.
      apply Qmult_le_l; [apply pow2_pos|]. apply Qlt_le_weak, Qd.
    + replace (a - b - 1 + 1)%Z with (a - b)%Z by lia. exact G.
Qed.

Lemma Qlog2_mono x y : 0 < x -> x <= y -> (Qlog2 x <= Qlog2 y)%Z.
Proof.
  intros Hx H.
  destruct (Qlog2_spec x Hx) as [Lx _].
  destruct (Qlog2_spec y (Qlt_le_trans _ _ _ Hx H)) as [_ Uy].
  assert (Qlog2 x < Qlog2 y + 1)%Z; [|lia].
  apply pow2_lt_inv. eapply Qle_lt_trans; [exact Lx|].
  eapply Qle_lt_trans; [exact H | exact Uy].
Qed.

(** *** Rounding to binary64 *)

Lemma round_binary64_eq x :
  round_binary64 x
  == inject_Z (Qround_half_even (x / 2 ^ binary64_exponent x))
     * 2 ^ binary64_exponent x.
Proof. unfold round_binary64. apply Qred_correct. Qed.

Lemma binary64_positive x : 0 < x -> binary64 x = round_binary64 x.
Proof.
  destruct x as [[|n|n] d]; unfold Qlt; simpl; intros H; try lia. reflexivity.
Qed.

Lemma binary64_zero x : x == 0 -> binary64 x = 0.
Proof.
  destruct x as [[|n|n] d]; unfold Qeq; simpl; intros H; try lia. reflexivity.
Qed.

Lemma scaled_nonneg x q : 0 <= x -> 0 <= x / 2 ^ q.
Proof.
  intros H. apply Qle_shift_div_l; [apply pow2_pos|]. now rewrite Qmult_0_l.
Qed.

Lemma round_binary64_nonneg x : 0 <= x -> 0 <= round_binary64 x.
Proof.
  intros H. rewrite round_binary64_eq.
  apply Qmult_le_0_compat; [|apply Qlt_le_weak, pow2_pos].
  rewrite <- (Zle_Qle 0). apply Qround_half_even_ge_Z. now apply scaled_nonneg.
Qed.

Lemma binary64_nonneg x : 0 <= x -> 0 <= binary64 x.
Proof.
  intros H. apply Qle_lteq in H as [H|H].
  - rewrite binary64_positive by assumption.
    apply round_binary64_nonneg. now apply Qlt_le_weak.
  - rewrite binary64_zero by (now symmetry). apply Qle_refl.
Qed.

(** A positive number that is not in the subnormal range rounds to at
    least the power of two at the bottom of its binade. *)
Lemma round_binary64_lower x :
  0 < x -> (-1074 <= Qlog2 x - 52)%Z -> 2 ^ Qlog2 x <= round_binary64 x.
Proof.
  intros Hx Hn. destruct (Qlog2_spec x Hx) as [L _].
  rewrite round_binary64_eq. unfold binary64_exponent.
  rewrite Z.max_l by assumption. set (e := Qlog2 x) in *.
  assert (E : 2 ^ e == inject_Z (2 ^ 52) * 2 ^ (e - 52)).
  { rewrite <- pow2_Z by lia. rewrite <- pow2_plus.
    apply Qpower_comp; [reflexivity|lia]. }
  rewrite E. apply Qmult_le_r; [apply pow2_pos|].
  rewrite <- Zle_Qle. apply Qround_half_even_ge_Z.
  apply Qle_shift_div_l; [apply pow2_pos|]. now rewrite <- E.
Qed.

(** It rounds to at most the power of two at the top of its binade, or to
    at most the smallest subnormal. *)
Lemma round_binary64_upper x :
  0 < x ->
  round_binary64 x <= 2 ^ Z.max (Qlog2 x + 1) (binary64_exponent x).
Proof.
  intros Hx. destruct (Qlog2_spec x Hx) as [_ U].
  rewrite round_binary64_eq.
  set (e := Qlog2 x) in *. set (q := binary64_exponent x).
  destruct (Z.le_gt_cases q (e + 1)) as [C|C].
  - rewrite Z.max_l by assumption.
    assert (E : 2 ^ (e + 1) == inject_Z (2 ^ (e + 1 - q)) * 2 ^ q).
    { rewrite <- pow2_Z by lia. rewrite <- pow2_plus.
      apply Qpower_comp; [reflexivity|lia]. }
    rewrite E. apply Qmult_le_r; [apply pow2_pos|].
    rewrite <- Zle_Qle. apply Qround_half_even_le_Z.
    apply Qle_shift_div_r; [apply pow2_pos|]. rewrite <- E.
    now apply Qlt_le_weak.
  - rewrite Z.max_r by lia.
    apply (Qle_trans _ (1 * 2 ^ q)); [|rewrite Qmult_1_l; apply Qle_refl].
    apply Qmult_le_r; [apply pow2_pos|].
    rewrite <- (Zle_Qle _ 1). apply Qround_half_even_le_Z.
    apply Qle_shift_div_r; [apply pow2_pos|].
    change (inject_Z 1) with 1. rewrite Qmult_1_l.
    apply Qlt_le_weak. eapply Qlt_le_trans; [exact U|]. apply pow2_le. lia.
Qed.

Lemma round_binary64_mono x y :
  0 < x -> x <= y -> round_binary64 x <= round_binary64 y.
Proof.
  intros Hx H. assert (Hy : 0 < y) by (eapply Qlt_le_trans; eassumption).
  pose proof (Qlog2_mono x y Hx H) as Le.
  destruct (Z.eq_dec (binary64_exponent x) (binary64_exponent y)) as [Eq|Ne].
  - rewrite !round_binary64_eq, Eq.
    apply Qmult_le_r; [apply pow2_pos|].
    rewrite <- Zle_Qle. apply Qround_half_even_mono.
    apply Qmult_le_r; [apply Qinv_lt_0_compat, pow2_pos | exact H].
  - assert (Lq : (binary64_exponent x < binary64_exponent y)%Z)
      by (unfold binary64_exponent in *; lia).
    assert (Ny : (-1074 <= Qlog2 y - 52)%Z)
      by (unfold binary64_exponent in *; lia).
    eapply Qle_trans; [apply round_binary64_upper; assumption|].
    eapply Qle_trans; [|apply round_binary64_lower; assumption].
    apply pow2_le. unfold binary64_exponent in *. lia.
Qed.

Lemma binary64_mono_nonneg x y : 0 <= x -> x <= y -> binary64 x <= binary64 y.
Proof.
  intros Hx H. apply Qle_lteq in Hx as [Hx|Hx].
  - rewrite !binary64_positive
      by (assumption || (eapply Qlt_le_trans; eassumption)).
    now apply round_binary64_mono.
  - rewrite (binary64_zero x) by (now symmetry).
    apply binary64_nonneg. now rewrite Hx.
Qed.

(** Integers of at most 53 bits are binary64 numbers. *)
Lemma binary64_exact_Z z :
  (0 <= z <= 2 ^ 53)%Z -> binary64 (inject_Z z) == inject_Z z.
Proof.
  intros [H0 H1]. destruct (Z.eq_dec z 0%Z) as [->|Hz]; [reflexivity|].
  assert (Hx : 0 < inject_Z z) by (rewrite <- (Zlt_Qlt 0); lia).
  rewrite binary64_positive, round_binary64_eq by assumption.
  destruct (Qlog2_spec _ Hx) as [L U].
  set (e := Qlog2 (inject_Z z)) in *.
  assert (E0 : (0 <= e)%Z).
  { assert (0 < e + 1)%Z; [|lia]. apply pow2_lt_inv.
    change (2 ^ 0) with 1.
    eapply Qle_lt_trans; [|exact U]. rewrite <- (Zle_Qle 1). lia. }
  assert (E1 : (e <= 53)%Z).
  { assert (e < 54)%Z; [|lia]. apply pow2_lt_inv.
    eapply Qle_lt_trans; [exact L|]. rewrite pow2_Z by lia.
    rewrite <- Zlt_Qlt. lia. }
  unfold binary64_exponent. fold e. rewrite Z.max_l by lia.
  destruct (Z.le_gt_cases e 52) as [C|C].
  - assert (S : inject_Z z / 2 ^ (e - 52) == inject_Z (z * 2 ^ (52 - e))).
    { rewrite inject_Z_mult, <- pow2_Z by lia.
      apply Qmult_inj_r with (z := 2 ^ (e - 52));
        [apply Qnot_eq_sym, Qlt_not_eq, pow2_pos|].
      rewrite Qmult_comm, Qmult_div_r
        by (apply Qnot_eq_sym, Qlt_not_eq, pow2_pos).
      rewrite <- Qmult_assoc, <- pow2_plus.
      replace (52 - e + (e - 52))%Z with 0%Z by lia.
      change (2 ^ 0) with 1. now rewrite Qmult_1_r. }
    rewrite (Qround_half_even_comp _ _ S), Qround_half_even_Z.
    rewrite inject_Z_mult, <- pow2_Z by lia.
    rewrite <- Qmult_assoc, <- pow2_plus.
    replace (52 - e + (e - 52))%Z with 0%Z by lia.
    change (2 ^ 0) with 1. now rewrite Qmult_1_r.
  - assert (e = 53)%Z by lia. subst e.
    assert (z = 2 ^ 53)%Z.
    { apply Z.le_antisymm; [assumption|]. rewrite Zle_Qle.
      rewrite <- pow2_Z by lia. replace 53%Z with (Qlog2 (inject_Z z)) at 1.
      exact L. }
    subst z. replace (Qlog2 (inject_Z (2 ^ 53))) with 53%Z. reflexivity.
Qed.

End Binary64Facts.

Module DeviceFacts.
Import Device.

Section WithRingBuffer.

Variable RB : Type.
Variable RB_Allocate : Z -> Z -> Z -> RB -> RB.
Variable RB_Fetch : RB -> AudioBuffer -> Z -> Z -> Z * AudioBuffer.
Variable RB_Store : RB -> AudioBuffer -> Z -> Z -> Z * RB.
Variable hostFrequency : Float64.
Variable kLoopbackRingBufferFrameSize : Z.

Lemma memset_zero_whole (buffer : list byte) (n : Z) :
  Z.to_nat n = length buffer ->
  memset_zero buffer n = RingBuffer.zeros (length buffer).
Proof.
  intros E. unfold memset_zero. rewrite E, Nat.min_id, drop_all.
  apply app_nil_r.
Qed.

(** What [memset_zero] leaves: zeros up to the size given or the end of the
    buffer, the rest as it was. *)
Lemma memset_zero_nothing (buffer : list byte) : memset_zero buffer 0 = buffer.
Proof. unfold memset_zero. simpl. apply drop_0. Qed.


(** *** Sample-rate setters *)

Lemma Qltb_lt x y : Qltb x y = true <-> (x < y)%Q.
Proof.
  unfold Qltb. rewrite negb_true_iff. split.
  - intros E. apply Qnot_le_lt. intros H. apply Qle_bool_iff in H. congruence.
  - intros H. destruct (Qle_bool y x) eqn:E; [|reflexivity].
    apply Qle_bool_iff in E. exfalso. now apply (Qlt_not_le x y).
Qed.

Lemma Qltb_ge x y : Qltb x y = false <-> (y <= x)%Q.
Proof.
  unfold Qltb. rewrite negb_false_iff. apply Qle_bool_iff.
Qed.

Lemma RequestSampleRate_result (s : t RB) r :
  result_of (RequestSampleRate r) s
  = if Qltb r 1 then Thrown (CAException kAudioDeviceUnsupportedFormatError)
    else Returned tt.
Proof.
  unfold result_of, RequestSampleRate, bind, get, modify, ThrowIf, Throw, ret.
  destruct (Qltb r 1); [reflexivity|]. simpl.
  destruct (negb (Qeq_bool r (GetSampleRate s))); reflexivity.
Qed.

Lemma SetSampleRate_result (s : t RB) r force :
  result_of (SetSampleRate RB_Allocate hostFrequency
               kLoopbackRingBufferFrameSize r force) s
  = if Qltb r 1 then Thrown (CAException kAudioDeviceUnsupportedFormatError)
    else Returned tt.
Proof.
  unfold result_of, SetSampleRate, InitLoopback, bind, get, modify, ThrowIf,
    Throw, ret.
  destruct (Qltb r 1); [reflexivity|]. simpl.
  destruct (negb (Qeq_bool r (GetSampleRate s)) || force); reflexivity.
Qed.

(** C8, as the code has it. RequestSampleRate and SetSampleRate accept a
    sample rate r exactly when 1 <= r and throw UnsupportedFormat exactly
    when r < 1; no upper bound is checked. A newly constructed device has
    the default sample rate, 44100 Hz. *)
Theorem sample_rate_setters_accept_from_one :
  forall (s : t RB) (r : Float64) (force : bool),
    (result_of (RequestSampleRate r) s = Returned tt <-> (1 <= r)%Q) /\
    (result_of (RequestSampleRate r) s
       = Thrown (CAException kAudioDeviceUnsupportedFormatError) <-> (r < 1)%Q) /\
    (result_of (SetSampleRate RB_Allocate hostFrequency
                  kLoopbackRingBufferFrameSize r force) s = Returned tt
       <-> (1 <= r)%Q) /\
    (result_of (SetSampleRate RB_Allocate hostFrequency
                  kLoopbackRingBufferFrameSize r force) s
       = Thrown (CAException kAudioDeviceUnsupportedFormatError) <-> (r < 1)%Q) /\
    (let new := construct RB_Allocate hostFrequency
                  kLoopbackRingBufferFrameSize s in
     fst new = Returned tt /\
     GetSampleRate (snd new) = kSampleRateDefault /\
     kSampleRateDefault = 44100 # 1).
Proof.
  intros s r force.
  rewrite RequestSampleRate_result, SetSampleRate_result.
  assert (A : (if Qltb r 1
               then Thrown (CAException kAudioDeviceUnsupportedFormatError)
               else Returned tt) = Returned tt <-> (1 <= r)%Q).
  { destruct (Qltb r 1) eqn:E.
    - apply Qltb_lt in E. split; [discriminate|].
      intros H. exfalso. exact (Qlt_not_le r 1 E H).
    - apply Qltb_ge in E. split; [intros _; exact E | reflexivity]. }
  assert (B : (if Qltb r 1
               then Thrown (CAException kAudioDeviceUnsupportedFormatError)
               else Returned tt)
              = Thrown (CAException kAudioDeviceUnsupportedFormatError)
              <-> (r < 1)%Q).
  { destruct (Qltb r 1) eqn:E.
    - apply Qltb_lt in E. split; [intros _; exact E | reflexivity].
    - apply Qltb_ge in E. split; [discriminate|].
      intros H. exfalso. exact (Qlt_not_le r 1 H E). }
  split; [exact A|]. split; [exact B|]. split; [exact A|]. split; [exact B|].
  unfold construct, SetSampleRate, InitLoopback, bind, get, modify, ThrowIf,
    Throw, ret, GetSampleRate.
  change (Qltb kSampleRateDefault 1) with false. cbn.
  rewrite orb_true_r. cbn. split; [|split]; reflexivity.
Qed.

End WithRingBuffer.


(** Reading through a ring buffer whose time bounds cannot be read
    consistently: Fetch reports CPUOverload and touches neither the buffer
    nor the byte size it was given. *)
Lemma ReadInputData_torn_ring (frames : Z) (time : Float64) (buffer : list byte) :
  fst (Loopback.Fetch_abl Loopback.torn_ring (wrap_buffer frames buffer) frames
         (cast_SInt64 time))
    = RingBuffer.kCARingBufferError_CPUOverload /\
  ReadInputData Loopback.Fetch_abl frames time buffer Loopback.reading_torn_ring
  = (Returned tt, memset_zero buffer ((frames * sizeof_Float32 * 2) mod 2 ^ 32)).
Proof.
  unfold ReadInputData, Loopback.Fetch_abl, RingBuffer.Fetch.
  change (mLoopbackRingBuffer Loopback.reading_torn_ring) with Loopback.torn_ring.
  replace (RingBuffer.GetTimeBounds Loopback.torn_ring)
    with RingBuffer.BoundsCPUOverload by (vm_compute; reflexivity).
  split; reflexivity.
Qed.

Lemma ReadInputData_torn_ring_size_0 (frames : Z) (time : Float64) (buffer : list byte) :
  (frames * sizeof_Float32 * 2) mod 2 ^ 32 = 0 ->
  ReadInputData Loopback.Fetch_abl frames time buffer Loopback.reading_torn_ring
  = (Returned tt, buffer).
Proof.
  intros E. destruct (ReadInputData_torn_ring frames time buffer) as [_ R].
  rewrite R, E, memset_zero_nothing. reflexivity.
Qed.

Lemma ones_are_not_silence (n : nat) :
  (0 < n)%nat ->
  length (replicate n x01) = n /\
  replicate n x01 !! 0%nat = Some x01 /\
  replicate n x01 <> RingBuffer.zeros (length (replicate n x01)).
Proof.
  intros P. split; [apply length_replicate|]. split.
  - now apply lookup_replicate_2.
  - rewrite length_replicate. unfold RingBuffer.zeros. intros E.
    assert (H : replicate n x01 !! 0%nat = Some x01) by now apply lookup_replicate_2.
    rewrite E, lookup_replicate_2 in H by assumption. discriminate.
Qed.

Lemma four_GiB_positive : (0 < Z.to_nat (2 ^ 32))%nat.
Proof. apply Nat2Z.inj_lt. rewrite Z2Nat.id by discriminate. reflexivity. Qed.


(** C8, where it fails: a sample rate of 2 GHz, twice the maximum of the
    advertised range, passes both setters, and SetSampleRate installs it. *)
Lemma sample_rate_above_advertised_maximum_is_accepted :
  let r : Float64 := 2000000000 # 1 in
  ~ (1 <= r <= snd AvailableNominalSampleRates)%Q /\
  result_of (RequestSampleRate r) Loopback.new_device = Returned tt /\
  result_of (SetSampleRate Loopback.Allocate_rb
               Loopback.nanosecond_ticks Loopback.ring_frames r false)
    Loopback.new_device = Returned tt /\
  GetSampleRate
    (state_after (SetSampleRate Loopback.Allocate_rb
                    Loopback.nanosecond_ticks Loopback.ring_frames r false)
       Loopback.new_device) = r.
Proof.
  intros r. split; [|split; [|split]].
  - intros [_ H]. unfold Qle in H. simpl in H. lia.
  - vm_compute. reflexivity.
  - vm_compute. reflexivity.
  - vm_compute. reflexivity.
Qed.

(** *** The loopback clock *)

Section LoopbackClock.

Variable RB : Type.
Variable kLoopbackRingBufferFrameSize : Z.

Local Abbreviation frames_per_ring := kLoopbackRingBufferFrameSize.

Lemma GetZeroTimeStamp_eq (s : t RB) (now : Z) :
  GetZeroTimeStamp frames_per_ring now s
  = (Returned
       {| outSampleTime :=
            cast_Float64 ((next_count frames_per_ring s now * frames_per_ring) mod 2 ^ 64);
          outHostTime :=
            cast_UInt64
              (stamp_host_time frames_per_ring s (next_count frames_per_ring s now));
          outSeed := 1 |},
     if (anchorHostTime s
         + cast_UInt64 (tick_offset frames_per_ring s
                          ((numberTimeStamps s + 1) mod 2 ^ 64))) mod 2 ^ 64 <=? now
     then with_numberTimeStamps ((numberTimeStamps s + 1) mod 2 ^ 64) s
     else s).
Proof.
  unfold GetZeroTimeStamp, next_count, stamp_host_time, tick_offset,
    ticks_per_ring, bind, get, modify, ret.
  destruct (_ <=? now); reflexivity.
Qed.

Lemma numberTimeStamps_after (s : t RB) (now : Z) :
  numberTimeStamps (state_after (GetZeroTimeStamp frames_per_ring now) s)
  = next_count frames_per_ring s now.
Proof.
  unfold state_after. rewrite GetZeroTimeStamp_eq. unfold next_count. simpl.
  destruct (_ <=? now); reflexivity.
Qed.

Lemma Qtrunc_floor (x : Q) : (0 <= x)%Q -> Qtrunc x = Qfloor x.
Proof.
  destruct x as [n d]. unfold Qle, Qtrunc, Qfloor. simpl. intros H.
  apply Z.quot_div_nonneg; lia.
Qed.

Lemma Qfloor_nonneg (x : Q) : (0 <= x)%Q -> 0 <= Qfloor x.
Proof. intros H. rewrite <- (Qfloor_Z 0). now apply Qfloor_resp_le. Qed.

Lemma cast_UInt64_floor (x : Q) :
  (0 <= x)%Q -> (x < inject_Z (2 ^ 64))%Q -> cast_UInt64 x = Qfloor x.
Proof.
  intros H0 H1. unfold cast_UInt64. rewrite Qtrunc_floor by assumption.
  apply Z.mod_small. split.
  - now apply Qfloor_nonneg.
  - rewrite Zlt_Qlt. eapply Qle_lt_trans; [apply Qfloor_le | exact H1].
Qed.

Lemma cast_UInt64_floor_small (x : Q) :
  (0 <= x)%Q -> Qfloor x < 2 ^ 64 -> cast_UInt64 x = Qfloor x.
Proof.
  intros H0 H1. unfold cast_UInt64. rewrite Qtrunc_floor by assumption.
  apply Z.mod_small. split; [now apply Qfloor_nonneg | assumption].
Qed.

Lemma cast_Float64_nonneg (z : Z) : 0 <= z -> (0 <= cast_Float64 z)%Q.
Proof.
  intros H. apply Binary64Facts.binary64_nonneg. now rewrite <- (Zle_Qle 0).
Qed.

(** The conversion of a non-negative integer to Float64 keeps the order. *)
Lemma cast_Float64_mono (z z' : Z) :
  0 <= z <= z' -> (cast_Float64 z <= cast_Float64 z')%Q.
Proof.
  intros [H0 H1]. apply Binary64Facts.binary64_mono_nonneg.
  - now rewrite <- (Zle_Qle 0).
  - now rewrite <- Zle_Qle.
Qed.

Lemma ticks_per_ring_nonneg (s : t RB) :
  0 <= frames_per_ring -> (0 <= hostTicksPerFrame s)%Q ->
  (0 <= ticks_per_ring frames_per_ring s)%Q.
Proof.
  intros Hk Ht. apply Binary64Facts.binary64_nonneg.
  apply Qmult_le_0_compat; [assumption | now apply cast_Float64_nonneg].
Qed.

Lemma tick_offset_nonneg (s : t RB) (count : Z) :
  0 <= frames_per_ring -> (0 <= hostTicksPerFrame s)%Q -> 0 <= count ->
  (0 <= tick_offset frames_per_ring s count)%Q.
Proof.
  intros Hk Ht Hc. apply Binary64Facts.binary64_nonneg.
  apply Qmult_le_0_compat;
    [now apply cast_Float64_nonneg | now apply ticks_per_ring_nonneg].
Qed.

Lemma stamp_host_time_nonneg (s : t RB) (count : Z) :
  0 <= frames_per_ring -> (0 <= hostTicksPerFrame s)%Q -> 0 <= count ->
  0 <= anchorHostTime s ->
  (0 <= stamp_host_time frames_per_ring s count)%Q.
Proof.
  intros Hk Ht Hc Ha. apply Binary64Facts.binary64_nonneg.
  apply (Qle_trans _ (cast_Float64 (anchorHostTime s) + 0)%Q).
  - rewrite Qplus_0_r. now apply cast_Float64_nonneg.
  - apply Qplus_le_r. now apply tick_offset_nonneg.
Qed.

(** A later zero time stamp is not given an earlier host time. *)
Lemma stamp_host_time_mono (s : t RB) (count count' : Z) :
  0 <= frames_per_ring -> (0 <= hostTicksPerFrame s)%Q ->
  0 <= anchorHostTime s -> 0 <= count <= count' ->
  (stamp_host_time frames_per_ring s count
   <= stamp_host_time frames_per_ring s count')%Q.
Proof.
  intros Hk Ht Ha Hc. apply Binary64Facts.binary64_mono_nonneg.
  - apply (Qle_trans _ (cast_Float64 (anchorHostTime s) + 0)%Q).
    + rewrite Qplus_0_r. now apply cast_Float64_nonneg.
    + apply Qplus_le_r. apply tick_offset_nonneg; (assumption || lia).
  - apply Qplus_le_r. apply Binary64Facts.binary64_mono_nonneg.
    + apply Qmult_le_0_compat;
        [apply cast_Float64_nonneg; lia | now apply ticks_per_ring_nonneg].
    + apply Qmult_le_compat_r;
        [now apply cast_Float64_mono | now apply ticks_per_ring_nonneg].
Qed.

Lemma session_sample_times_sorted (nows : list Z) :
  forall s : t RB,
    0 < frames_per_ring ->
    0 <= numberTimeStamps s ->
    (numberTimeStamps s + Z.of_nat (length nows)) * frames_per_ring < 2 ^ 64 ->
    Forall (Qle (cast_Float64 (numberTimeStamps s * frames_per_ring)))
      (session_sample_times frames_per_ring nows s) /\
    StronglySorted Qle (session_sample_times frames_per_ring nows s).
Proof.
  induction nows as [|now rest IH]; intros s Hk Hn Hb; simpl.
  - split; constructor.
  - pose proof (numberTimeStamps_after s now) as A. unfold state_after in A.
    rewrite GetZeroTimeStamp_eq in *. simpl in A. simpl.
    set (s' := if _ <=? now then _ else s) in *.
    cbn [length] in Hb. rewrite Nat2Z.inj_succ in Hb.
    assert (R : numberTimeStamps s <= next_count frames_per_ring s now <= numberTimeStamps s + 1
                /\ next_count frames_per_ring s now = numberTimeStamps s').
    { split; [|congruence]. unfold next_count.
      destruct (_ <=? now); [|lia].
      rewrite Z.mod_small; [lia|]. split; [lia|]. nia. }
    destruct R as [R E].
    destruct (IH s') as [F S]; [assumption | lia | nia |].
    assert (X : (next_count frames_per_ring s now * frames_per_ring) mod 2 ^ 64
                = numberTimeStamps s' * frames_per_ring).
    { rewrite E. apply Z.mod_small. split; [nia|nia]. }
    rewrite X. split.
    + constructor.
      * apply cast_Float64_mono. nia.
      * eapply Forall_impl; [exact F|]. intros a Ha.
        eapply Qle_trans; [|exact Ha]. apply cast_Float64_mono. nia.
    + constructor; assumption.
Qed.

(** C7, as the code has it. _HW_StartIO sets the anchor to the current host
    time and the tick count to 0. Every Float64 operation being rounded to
    binary64 (fl: to nearest, ties to even), let ticksPerRing =
    fl(ticksPerFrame x framesPerRing) and offset(k) = fl(fl(k) x
    ticksPerRing). A call of GetZeroTimeStamp, no 64-bit value wrapping,
    adds exactly 1 to the tick count when anchorHost +
    trunc(offset(tsCount + 1)) <= now (the offset is truncated to an
    unsigned integer before it is added, in integer arithmetic, and
    compared) and leaves it unchanged otherwise; with the tick count it
    leaves, it returns sampleTime = fl(tsCount x framesPerRing), which is
    tsCount x framesPerRing itself up to 2^53, hostTime =
    trunc(fl(fl(anchorHost) + offset(tsCount))) and seed = 1. The sample
    times returned by the successive calls of a session are
    non-decreasing. *)
Theorem loopback_clock_zero_time_stamps :
  (forall (s : t RB) (now0 : Z),
     let s0 := state_after (_HW_StartIO now0) s in
     anchorHostTime s0 = now0 /\ numberTimeStamps s0 = 0 /\
     hostTicksPerFrame s0 = hostTicksPerFrame s) /\
  (forall (s : t RB) (now : Z),
     let n := numberTimeStamps s in
     let anchor := anchorHostTime s in
     0 <= frames_per_ring ->
     0 <= n -> n + 1 < 2 ^ 64 -> (n + 1) * frames_per_ring < 2 ^ 64 ->
     0 <= anchor ->
     (0 <= hostTicksPerFrame s)%Q ->
     let next := anchor + Qfloor (tick_offset frames_per_ring s (n + 1)) in
     next < 2 ^ 64 ->
     (stamp_host_time frames_per_ring s (n + 1) < inject_Z (2 ^ 64))%Q ->
     let s' := state_after (GetZeroTimeStamp frames_per_ring now) s in
     let n' := numberTimeStamps s' in
     (next <= now -> n' = n + 1) /\
     (now < next -> n' = n) /\
     result_of (GetZeroTimeStamp frames_per_ring now) s
     = Returned {| outSampleTime := cast_Float64 (n' * frames_per_ring);
                   outHostTime := Qfloor (stamp_host_time frames_per_ring s n');
                   outSeed := 1 |} /\
     (n' * frames_per_ring <= 2 ^ 53 ->
      (cast_Float64 (n' * frames_per_ring) == inject_Z (n' * frames_per_ring))%Q)) /\
  (forall (s : t RB) (now0 : Z) (nows : list Z),
     0 < frames_per_ring ->
     Z.of_nat (length nows) * frames_per_ring < 2 ^ 64 ->
     StronglySorted Qle
       (session_sample_times frames_per_ring nows (state_after (_HW_StartIO now0) s))).
Proof.
  split; [|split].
  - intros s now0 s0. subst s0. repeat split.
  - intros s now n anchor Hk Hn Hn1 Hnk Ha Ht next Hnext Hfit s' n'.
    assert (O : (0 <= tick_offset frames_per_ring s (n + 1))%Q)
      by (apply tick_offset_nonneg; (assumption || lia)).
    assert (F0 : 0 <= Qfloor (tick_offset frames_per_ring s (n + 1)))
      by (now apply Qfloor_nonneg).
    assert (C : cast_UInt64 (tick_offset frames_per_ring s (n + 1))
                = Qfloor (tick_offset frames_per_ring s (n + 1)))
      by (apply cast_UInt64_floor_small; [assumption | lia]).
    assert (N' : n' = next_count frames_per_ring s now) by apply numberTimeStamps_after.
    assert (NC : next_count frames_per_ring s now = if next <=? now then n + 1 else n).
    { unfold next_count. fold n anchor.
      rewrite (Z.mod_small (n + 1)) by lia. rewrite C.
      fold next. rewrite (Z.mod_small next) by lia. reflexivity. }
    assert (B : n <= n' <= n + 1)
      by (rewrite N', NC; destruct (next <=? now); lia).
    split; [|split; [|split]].
    + intros H. rewrite N', NC.
      destruct (Z.leb_spec next now); [reflexivity | lia].
    + intros H. rewrite N', NC.
      destruct (Z.leb_spec next now); [lia | reflexivity].
    + unfold result_of. rewrite GetZeroTimeStamp_eq. simpl.
      rewrite <- N'. f_equal. f_equal.
      * f_equal. apply Z.mod_small. split; nia.
      * apply cast_UInt64_floor.
        -- apply stamp_host_time_nonneg; (assumption || lia).
        -- eapply Qle_lt_trans; [|exact Hfit].
           apply stamp_host_time_mono; (assumption || lia).
    + intros E. apply Binary64Facts.binary64_exact_Z. split; [nia | assumption].
  - intros s now0 nows Hk Hb.
    apply session_sample_times_sorted; simpl; try lia.
Qed.

End LoopbackClock.

(** C7, where the untruncated reading fails. At host time 371519274 the
    next zero time stamp, anchor + 1 x ticksPerFrame x framesPerRing, still
    lies a fraction of a tick ahead, yet the tick count goes from 0 to 1,
    and the host time returned is 371519274, not that fractional value. *)
Lemma tick_offset_is_truncated_before_comparison :
  let s := Loopback.started_at_0 in
  let now := 371519274 in
  let stamp_time (n : Z) : Q :=
    (inject_Z (anchorHostTime s)
     + inject_Z n * hostTicksPerFrame s * inject_Z Loopback.ring_frames)%Q in
  ~ (stamp_time (numberTimeStamps s + 1)%Z <= inject_Z now)%Q /\
  numberTimeStamps (state_after (GetZeroTimeStamp Loopback.ring_frames now) s)
    = numberTimeStamps s + 1 /\
  (forall stamp,
     result_of (GetZeroTimeStamp Loopback.ring_frames now) s = Returned stamp ->
     outHostTime stamp = 371519274 /\
     ~ (inject_Z (outHostTime stamp) == stamp_time 1%Z)%Q).
Proof.
  intros s now stamp_time. split; [|split].
  - intros H. vm_compute in H. apply H. reflexivity.
  - vm_compute. reflexivity.
  - intros stamp E. vm_compute in E. injection E as <-.
    split; [reflexivity|]. intros H. vm_compute in H. discriminate.
Qed.

(** The Float64 arithmetic of the clock at work. Ticks per frame at
    44100 Hz on a nanosecond clock are the binary64 number nearest to
    10^9 / 44100; and with the anchor at 2^53 + 1, which is not a binary64
    number, the first zero time stamp carries the host time 2^53. *)
Example loopback_clock_rounds_to_binary64 :
  (hostTicksPerFrame Loopback.started_at_0 == 6233059114376417 # 274877906944)%Q /\
  ~ (hostTicksPerFrame Loopback.started_at_0 == 1000000000 # 44100)%Q /\
  result_of (GetZeroTimeStamp Loopback.ring_frames (2 ^ 53 + 1))
    (state_after (_HW_StartIO (2 ^ 53 + 1)) Loopback.new_device)
  = Returned {| outSampleTime := 0%Q; outHostTime := 2 ^ 53; outSeed := 1 |}.
Proof.
  split; [|split].
  - vm_compute. reflexivity.
  - intros H. vm_compute in H. discriminate.
  - vm_compute. reflexivity.
Qed.

Lemma loopback_clock_zero_time_stamps_witness :
  let s := Loopback.started_at_0 in
  let k := Loopback.ring_frames in
  let now := 371519274 in
  0 <= k /\
  0 <= numberTimeStamps s /\
  numberTimeStamps s + 1 < 2 ^ 64 /\
  (numberTimeStamps s + 1) * k < 2 ^ 64 /\
  0 <= anchorHostTime s /\
  (0 <= hostTicksPerFrame s)%Q /\
  anchorHostTime s + Qfloor (tick_offset k s (numberTimeStamps s + 1)) < 2 ^ 64 /\
  (stamp_host_time k s (numberTimeStamps s + 1) < inject_Z (2 ^ 64))%Q /\
  anchorHostTime s + Qfloor (tick_offset k s (numberTimeStamps s + 1)) <= now /\
  numberTimeStamps (state_after (GetZeroTimeStamp k now) s) = numberTimeStamps s + 1.
Proof.
  intros s k now.
  assert (H1 : 0 <= k) by (vm_compute; discriminate).
  assert (H2 : 0 <= numberTimeStamps s) by (vm_compute; discriminate).
  assert (H3 : numberTimeStamps s + 1 < 2 ^ 64) by (vm_compute; reflexivity).
  assert (H4 : (numberTimeStamps s + 1) * k < 2 ^ 64) by (vm_compute; reflexivity).
  assert (H5 : 0 <= anchorHostTime s) by (vm_compute; discriminate).
  assert (H6 : (0 <= hostTicksPerFrame s)%Q) by (vm_compute; discriminate).
  assert (H7 : anchorHostTime s
               + Qfloor (tick_offset k s (numberTimeStamps s + 1)) < 2 ^ 64)
    by (vm_compute; reflexivity).
  assert (H8 : (stamp_host_time k s (numberTimeStamps s + 1)
                < inject_Z (2 ^ 64))%Q) by (vm_compute; reflexivity).
  assert (H9 : anchorHostTime s
               + Qfloor (tick_offset k s (numberTimeStamps s + 1)) <= now)
    by (vm_compute; discriminate).
  repeat (split; [assumption|]).
  destruct (loopback_clock_zero_time_stamps RingBuffer.t k) as (_ & Step & _).
  destruct (Step s now H1 H2 H3 H4 H5 H6 H7 H8) as (Inc & _ & _).
  exact (Inc H9).
Defined.

End DeviceFacts.

Module SampleRateFacts.
Import Device.

Section WithRingBuffer.

Variable RB : Type.
Variable RB_Allocate : Z -> Z -> Z -> RB -> RB.
Variable hostFrequency : Float64.
Variable kLoopbackRingBufferFrameSize : Z.

Lemma Qeq_bool_false (x y : Q) : ~ (x == y)%Q -> Qeq_bool x y = false.
Proof.
  intros H. destruct (Qeq_bool x y) eqn:E; [|reflexivity].
  apply Qeq_bool_iff in E. contradiction.
Qed.

Lemma Qltb_false (x y : Q) : (y <= x)%Q -> Qltb x y = false.
Proof.
  intros H. unfold Qltb. apply negb_false_iff. now apply Qle_bool_iff.
Qed.

(** X10. A sample-rate request and the configuration change performed for
    it. For a rate [r] of at least 1 Hz that is not the current rate,
    [RequestSampleRate] returns, leaves the rate, the ring buffer and the
    ticks per frame as they were and asks the host for one change of the
    sample rate. [PerformConfigChange] for that change then returns with
    the device and both streams at [r], the host ticks per frame at the
    binary64 quotient of the host frequency by [r], and the ring buffer
    allocated anew for one channel stream of two Float32 per frame and the
    loopback frame count; the time-stamp count and the anchor are not
    touched. *)
Theorem RequestSampleRate_then_PerformConfigChange :
  forall (s : t RB) (r : Float64),
    (1 <= r)%Q ->
    ~ (r == GetSampleRate s)%Q ->
    let perform :=
      PerformConfigChange_SetSampleRate RB_Allocate hostFrequency
        kLoopbackRingBufferFrameSize in
    let s1 := state_after (RequestSampleRate r) s in
    let s2 := state_after perform s1 in
    result_of (RequestSampleRate r) s = Returned tt /\
    GetSampleRate s1 = GetSampleRate s /\
    mLoopbackRingBuffer s1 = mLoopbackRingBuffer s /\
    hostTicksPerFrame s1 = hostTicksPerFrame s /\
    requested s1 = requested s ++ [SetSampleRateAction] /\
    result_of perform s1 = Returned tt /\
    GetSampleRate s2 = r /\
    mInputStream s2 = r /\
    mOutputStream s2 = r /\
    hostTicksPerFrame s2 = Float64_div hostFrequency r /\
    mLoopbackRingBuffer s2
      = RB_Allocate 1 (2 * sizeof_Float32) kLoopbackRingBufferFrameSize
          (mLoopbackRingBuffer s) /\
    numberTimeStamps s2 = numberTimeStamps s /\
    anchorHostTime s2 = anchorHostTime s.
Proof.
  intros s r H1 Hne perform s1 s2. subst perform s1 s2.
  unfold result_of, state_after, PerformConfigChange_SetSampleRate,
    RequestSampleRate, SetSampleRate, InitLoopback, GetSampleRate,
    bind, get, modify, ThrowIf, Throw, ret in *.
  rewrite (Qltb_false _ _ H1). simpl.
  rewrite (Qeq_bool_false _ _ Hne). simpl.
  rewrite (Qltb_false _ _ H1). simpl.
  rewrite (Qeq_bool_false _ _ Hne). simpl.
  repeat split; reflexivity.
Qed.

End WithRingBuffer.

Lemma RequestSampleRate_then_PerformConfigChange_witness :
  let s := Loopback.new_device in
  let r : Float64 := 48000 # 1 in
  (1 <= r)%Q /\
  ~ (r == GetSampleRate s)%Q /\
  GetSampleRate
    (state_after
       (PerformConfigChange_SetSampleRate Loopback.Allocate_rb
          Loopback.nanosecond_ticks Loopback.ring_frames)
       (state_after (RequestSampleRate r) s)) = r.
Proof.
  intros s r.
  assert (H1 : (1 <= r)%Q) by (vm_compute; discriminate).
  assert (H2 : ~ (r == GetSampleRate s)%Q) by (intros E; vm_compute in E; discriminate).
  split; [exact H1|]. split; [exact H2|].
  destruct (RequestSampleRate_then_PerformConfigChange RingBuffer.t
              Loopback.Allocate_rb Loopback.nanosecond_ticks Loopback.ring_frames
              s r H1 H2) as (_ & _ & _ & _ & _ & _ & G & _).
  exact G.
Defined.

End SampleRateFacts.

Module PlugInInterfaceFacts.
Import PlugInInterface.

Lemma count_after_stuck c : count_after c UINT32_MAX = UINT32_MAX.
Proof.
  destruct c as [[] [] [] []|[]|[]]; reflexivity.
Qed.

Lemma turned_down_stuck c : turned_down c UINT32_MAX.
Proof.
  destruct c as [[] [] [] []|[]|[]]; simpl; try reflexivity; discriminate.
Qed.

Lemma count_after_range c n :
  0 <= n <= UINT32_MAX -> 0 <= count_after c n <= UINT32_MAX.
Proof.
  intros H. unfold UINT32_MAX in *.
  assert (M : forall x, 0 <= x mod 2 ^ 32 <= 2 ^ 32 - 1)
    by (intros x; pose proof (Z.mod_pos_bound x (2 ^ 32)); lia).
  destruct c as [[] [] [] []|[]|[]]; simpl; try assumption;
    unfold RDC_QueryInterface, RDC_AddRef, RDC_Release; simpl;
    destruct (n =? UINT32_MAX); simpl; try assumption; apply M.
Qed.

(** X11. The reference count of the plug-in interface. Below
    [UINT32_MAX - 1], [RDC_AddRef] answers with the count plus one and
    [RDC_Release] undoes it, answering with the count before. One more
    [RDC_AddRef] at [UINT32_MAX - 1], or one [RDC_Release] at 0 (which
    wraps), leaves the count at [UINT32_MAX], and there it stays: after any
    further calls of [RDC_QueryInterface], [RDC_AddRef] and [RDC_Release]
    the count is still [UINT32_MAX] and every such call is turned down.
    From the initial count 1 the count never leaves the range of a
    UInt32. *)
Theorem reference_count_sticks_at_UINT32_MAX :
  (forall n, 0 <= n < UINT32_MAX - 1 ->
     RDC_AddRef true n = (n + 1, n + 1) /\
     RDC_Release true (n + 1) = (n, n)) /\
  RDC_AddRef true (UINT32_MAX - 1) = (UINT32_MAX, UINT32_MAX) /\
  RDC_Release true 0 = (UINT32_MAX, UINT32_MAX) /\
  (forall (cs : list call) (c : call),
     count_after_all cs UINT32_MAX = UINT32_MAX /\
     turned_down c (count_after_all cs UINT32_MAX)) /\
  (forall (cs : list call),
     0 <= count_after_all cs gAudioServerPlugInDriverRefCount <= UINT32_MAX).
Proof.
  split; [|split; [|split; [|split]]].
  - intros n H. unfold RDC_AddRef, RDC_Release, UINT32_MAX in *. simpl.
    destruct (Z.eqb_spec n (2 ^ 32 - 1)); [lia|].
    destruct (Z.eqb_spec (n + 1) (2 ^ 32 - 1)); [lia|].
    replace (n + 1 - 1) with n by lia.
    rewrite !Z.mod_small by lia. auto.
  - reflexivity.
  - reflexivity.
  - intros cs c.
    assert (S : count_after_all cs UINT32_MAX = UINT32_MAX).
    { unfold count_after_all. induction cs as [|c' cs IH]; [reflexivity|].
      simpl. now rewrite count_after_stuck. }
    rewrite S. split; [reflexivity | apply turned_down_stuck].
  - intros cs. unfold count_after_all.
    assert (G : forall n, 0 <= n <= UINT32_MAX ->
                  0 <= foldl (fun n c => count_after c n) n cs <= UINT32_MAX).
    { induction cs as [|c cs IH]; intros n H; simpl; [assumption|].
      apply IH. now apply count_after_range. }
    apply G. vm_compute. split; discriminate.
Qed.

Lemma reference_count_sticks_at_UINT32_MAX_witness :
  0 <= 1 < UINT32_MAX - 1 /\
  RDC_AddRef true 1 = (2, 2) /\ RDC_Release true 2 = (1, 1).
Proof.
  assert (H : 0 <= 1 < UINT32_MAX - 1) by (vm_compute; split; [discriminate|reflexivity]).
  split; [exact H|].
  destruct reference_count_sticks_at_UINT32_MAX as (R & _).
  exact (R 1 H).
Defined.

End PlugInInterfaceFacts.

Module MuteControlFacts.
Import MuteControl.

Section WithObject.

Variable RDC_Object_HasProperty : Z -> Z -> result bool.
Variable RDC_Object_IsPropertySettable : Z -> Z -> result bool.
Variable RDC_Object_GetPropertyDataSize : Z -> Z -> result Z.
Variable RDC_Object_GetPropertyData : Z -> Z -> Z -> result (Z * PropertyData).
Variable RDC_Object_SetPropertyData : Z -> Z -> Z -> Z -> t -> result unit * t.

Local Abbreviation Get := (GetPropertyData RDC_Object_GetPropertyData).
Local Abbreviation Set_ := (SetPropertyData RDC_Object_SetPropertyData).

Lemma CheckObjectID_passes (s : t) :
  mObjectID s <> kAudioObjectUnknown -> CheckObjectID (mObjectID s) s = None.
Proof.
  intros H. unfold CheckObjectID.
  destruct (Z.eqb_spec (mObjectID s) kAudioObjectUnknown); [contradiction|].
  now rewrite Z.eqb_refl.
Qed.

Lemma CheckObjectID_throws (id : Z) (s : t) :
  id = kAudioObjectUnknown \/ id <> mObjectID s ->
  CheckObjectID id s = Some kAudioHardwareBadObjectError.
Proof.
  intros H. unfold CheckObjectID.
  destruct (Z.eqb_spec id kAudioObjectUnknown); [reflexivity|].
  destruct (Z.eqb_spec id (mObjectID s)); [|reflexivity].
  destruct H; contradiction.
Qed.

(** X12. Setting the mute value and reading it back. On a mute control
    addressed by its own, known object ID, with at least [sizeof(UInt32)]
    bytes of data, [SetPropertyData] of [kAudioBooleanControlPropertyValue]
    returns; [GetPropertyData] then gives 4 bytes holding 1 when the data
    set was non-zero and 0 when it was zero; the property exists, is
    settable and has size 4; one notification for the control's scope and
    element was dispatched exactly when the mute state changed; setting the
    same value again changes nothing; and scope and element still read as
    before. *)
Theorem mute_value_set_then_get :
  forall (s : t) (inData setSize getSize : Z),
    mObjectID s <> kAudioObjectUnknown ->
    sizeof_UInt32 <= setSize ->
    sizeof_UInt32 <= getSize ->
    let id := mObjectID s in
    let value := kAudioBooleanControlPropertyValue in
    let set := Set_ id value setSize inData s in
    let s' := snd set in
    fst set = Done tt /\
    Get id value getSize s'
      = Done (sizeof_UInt32, UInt32Data (if inData =? 0 then 0 else 1)) /\
    GetPropertyDataSize RDC_Object_GetPropertyDataSize id value s'
      = Done sizeof_UInt32 /\
    HasProperty RDC_Object_HasProperty id value s' = Done true /\
    IsPropertySettable RDC_Object_IsPropertySettable id value s' = Done true /\
    notified s'
      = (if Bool.eqb (mMuted s) (negb (inData =? 0)) then notified s
         else notified s ++ [mkChanged id value (mScope s) (mElement s)]) /\
    Set_ id value setSize inData s' = (Done tt, s') /\
    Get id kAudioControlPropertyScope getSize s'
      = Done (sizeof_UInt32, UInt32Data (mScope s)) /\
    Get id kAudioControlPropertyElement getSize s'
      = Done (sizeof_UInt32, UInt32Data (mElement s)).
Proof.
  intros s inData setSize getSize Hid Hs Hg id value set s'.
  subst set s' id value.
  unfold SetPropertyData, GetPropertyData, GetPropertyDataSize, HasProperty,
    IsPropertySettable, Control_GetPropertyData.
  rewrite (CheckObjectID_passes s Hid).
  change (kAudioBooleanControlPropertyValue =? kAudioBooleanControlPropertyValue)
    with true.
  change (kAudioControlPropertyScope =? kAudioBooleanControlPropertyValue) with false.
  change (kAudioControlPropertyElement =? kAudioBooleanControlPropertyValue) with false.
  change (kAudioControlPropertyScope =? kAudioControlPropertyScope) with true.
  change (kAudioControlPropertyElement =? kAudioControlPropertyScope) with false.
  change (kAudioControlPropertyElement =? kAudioControlPropertyElement) with true.
  cbv iota.
  destruct (Z.ltb_spec setSize sizeof_UInt32) as [C|_]; [lia|].
  destruct (Z.ltb_spec getSize sizeof_UInt32) as [C|_]; [lia|].
  destruct (mMuted s) eqn:M, (inData =? 0) eqn:V; simpl;
    unfold CheckObjectID; simpl;
    destruct (Z.eqb_spec (mObjectID s) kAudioObjectUnknown); try contradiction;
    rewrite ?Z.eqb_refl; simpl;
    destruct (Z.ltb_spec getSize sizeof_UInt32); try lia;
    destruct (Z.ltb_spec setSize sizeof_UInt32); try lia;
    rewrite ?M, ?V; simpl;
    repeat split; try reflexivity; destruct s; simpl in *; subst; reflexivity.
Qed.

(** X13. Refused operations of the mute control. With the object ID
    [kAudioObjectUnknown] or any ID other than the control's own, each of
    the five property operations throws [kAudioHardwareBadObjectError]
    whatever the selector, and [SetPropertyData] leaves the control as it
    was. With the right ID and fewer than [sizeof(UInt32)] bytes, reading
    the mute value, the scope or the element and setting the mute value
    throw [kAudioHardwareBadPropertySizeError], again without a change. *)
Theorem mute_control_refusals_change_nothing :
  forall (s : t) (id mSelector size inData : Z),
    (id = kAudioObjectUnknown \/ id <> mObjectID s ->
     HasProperty RDC_Object_HasProperty id mSelector s
       = Raised kAudioHardwareBadObjectError /\
     IsPropertySettable RDC_Object_IsPropertySettable id mSelector s
       = Raised kAudioHardwareBadObjectError /\
     GetPropertyDataSize RDC_Object_GetPropertyDataSize id mSelector s
       = Raised kAudioHardwareBadObjectError /\
     Get id mSelector size s = Raised kAudioHardwareBadObjectError /\
     Set_ id mSelector size inData s = (Raised kAudioHardwareBadObjectError, s)) /\
    (mObjectID s <> kAudioObjectUnknown -> size < sizeof_UInt32 ->
     Get (mObjectID s) kAudioBooleanControlPropertyValue size s
       = Raised kAudioHardwareBadPropertySizeError /\
     Get (mObjectID s) kAudioControlPropertyScope size s
       = Raised kAudioHardwareBadPropertySizeError /\
     Get (mObjectID s) kAudioControlPropertyElement size s
       = Raised kAudioHardwareBadPropertySizeError /\
     Set_ (mObjectID s) kAudioBooleanControlPropertyValue size inData s
       = (Raised kAudioHardwareBadPropertySizeError, s)).
Proof.
  intros s id mSelector size inData. split.
  - intros H.
    unfold SetPropertyData, GetPropertyData, GetPropertyDataSize, HasProperty,
      IsPropertySettable.
    rewrite (CheckObjectID_throws id s H). repeat split; reflexivity.
  - intros Hid Hsz.
    unfold SetPropertyData, GetPropertyData, Control_GetPropertyData.
    rewrite (CheckObjectID_passes s Hid).
    change (kAudioBooleanControlPropertyValue =? kAudioBooleanControlPropertyValue)
      with true.
    change (kAudioControlPropertyScope =? kAudioBooleanControlPropertyValue) with false.
    change (kAudioControlPropertyElement =? kAudioBooleanControlPropertyValue) with false.
    change (kAudioControlPropertyScope =? kAudioControlPropertyScope) with true.
    change (kAudioControlPropertyElement =? kAudioControlPropertyScope) with false.
    change (kAudioControlPropertyElement =? kAudioControlPropertyElement) with true.
    cbv iota.
    destruct (Z.ltb_spec size sizeof_UInt32) as [_|C]; [|lia].
    repeat split; reflexivity.
Qed.

End WithObject.

Lemma mute_value_set_then_get_witness :
  let s := new_mute_control in
  mObjectID s <> kAudioObjectUnknown /\
  sizeof_UInt32 <= 4 /\
  GetPropertyData no_property_data 6 kAudioBooleanControlPropertyValue 4
    (snd (SetPropertyData no_property_to_set
            6 kAudioBooleanControlPropertyValue 4 7 s))
  = Done (4, UInt32Data 1).
Proof.
  intros s.
  assert (H1 : mObjectID s <> kAudioObjectUnknown) by discriminate.
  assert (H2 : sizeof_UInt32 <= 4) by discriminate.
  split; [exact H1|]. split; [exact H2|].
  destruct (mute_value_set_then_get no_property no_property no_property
              no_property_data
              no_property_to_set
              s 7 4 4 H1 H2 H2) as (_ & G & _).
  exact G.
Defined.

Lemma mute_control_refusals_change_nothing_witness :
  let s := new_mute_control in
  (5 = kAudioObjectUnknown \/ 5 <> mObjectID s) /\
  SetPropertyData no_property_to_set
    5 kAudioBooleanControlPropertyValue 4 1 s
  = (Raised kAudioHardwareBadObjectError, s).
Proof.
  intros s.
  assert (H : 5 = kAudioObjectUnknown \/ 5 <> mObjectID s) by (right; discriminate).
  split; [exact H|].
  destruct (mute_control_refusals_change_nothing no_property no_property no_property
              no_property_data
              no_property_to_set
              s 5 kAudioBooleanControlPropertyValue 4 1) as (R & _).
  destruct (R H) as (_ & _ & _ & _ & E). exact E.
Defined.

End MuteControlFacts.
